(** * judithfan/rps: the JSON-to-CSV export scripts

    A shallow embedding of [analysis/json_to_csv_v1.py] and
    [analysis/json_to_csv_v3.py].  Both scripts list a data directory,
    keep the session files, load each one with [json.loads] and write two CSV
    rows per round through a [csv.writer].

    Python values are an inductive type, dictionaries are finite maps,
    exceptions are an error type, and the body of the [with] block is a
    computation in a state-and-exception monad whose state holds the rows
    written so far, the [write_index] flag, the files opened and the lines
    printed. *)

From Stdlib Require Import ZArith Ascii String List Bool Lia.
From Stdlib Require Import Numbers.DecimalString.
From stdpp Require Import base option list gmap strings.

Import ListNotations.
Local Open Scope string_scope.
Local Open Scope Z_scope.

Set Warnings "-register-all".

(** ** Python values *)

(** What [json.loads] returns: [None], booleans, integers, floats, strings,
    lists and dictionaries keyed by strings.  A float is carried as the text
    [repr] prints for it; the scripts never compute with numbers. *)
Inductive pyval : Type :=
  | PNone
  | PBool (b : bool)
  | PInt (z : Z)
  | PFloat (repr : string)
  | PStr (s : string)
  | PList (l : list pyval)
  | PDict (m : gmap string pyval).

(** ** Exceptions *)

Inductive exn : Type :=
  | KeyError (k : string)
  | TypeError
  | OSError
  | JSONDecodeError
  | ValueError
  | RecursionError
  | UnicodeEncodeError.

Inductive result (A : Type) : Type :=
  | Ok (a : A)
  | Err (e : exn).
Arguments Ok {A} a.
Arguments Err {A} e.

Definition rbind {A B} (r : result A) (k : A -> result B) : result B :=
  match r with
  | Ok a => k a
  | Err e => Err e
  end.

Declare Scope result_scope.
Delimit Scope result_scope with result.
Notation "x <- c1 ;; c2" := (rbind c1 (fun x => c2))
  (at level 100, c1 at next level, right associativity) : result_scope.

(** A list display [[e1, e2, ...]] evaluates its items from left to right and
    the first exception escapes. *)
Fixpoint mapM {A B} (f : A -> result B) (l : list A) : result (list B) :=
  match l with
  | [] => Ok []
  | a :: l' =>
      (b <- f a ;;
       bs <- mapM f l' ;;
       Ok (b :: bs))%result
  end.

(** ** String tests *)

Fixpoint startswith (s p : string) {struct p} : bool :=
  match p, s with
  | EmptyString, _ => true
  | String a p', String b s' => Ascii.eqb a b && startswith s' p'
  | String _ _, EmptyString => false
  end.

(** [s.endswith(suf)] *)
Fixpoint endswith (s suf : string) : bool :=
  String.eqb s suf ||
  match s with
  | EmptyString => false
  | String _ s' => endswith s' suf
  end.

(** [sub in s] for two strings *)
Fixpoint str_contains (sub s : string) : bool :=
  startswith s sub ||
  match s with
  | EmptyString => false
  | String _ s' => str_contains sub s'
  end.

(** ** Subscription, membership, iteration *)

(** [v[k]] with a string [k]: only a dictionary can be subscripted by a
    string; a missing key is a [KeyError], anything else a [TypeError]. *)
Definition getitem (v : pyval) (k : string) : result pyval :=
  match v with
  | PDict m =>
      match m !! k with
      | Some x => Ok x
      | None => Err (KeyError k)
      end
  | _ => Err TypeError
  end.

Definition is_str (k : string) (v : pyval) : bool :=
  match v with
  | PStr s => String.eqb s k
  | _ => false
  end.

(** [k in v] with a string [k]: key membership for a dictionary, element
    membership for a list, substring test for a string. *)
Definition contains (v : pyval) (k : string) : result bool :=
  match v with
  | PDict m => Ok (bool_decide (is_Some (m !! k)))
  | PList l => Ok (existsb (is_str k) l)
  | PStr s => Ok (str_contains k s)
  | _ => Err TypeError
  end.

Definition chars (s : string) : list pyval :=
  map (fun c => PStr (String c EmptyString)) (list_ascii_of_string s).

(** The items [for r in v] goes through: the elements of a list, the keys
    of a dictionary, the characters of a string. *)
Definition iter (v : pyval) : result (list pyval) :=
  match v with
  | PList l => Ok l
  | PDict m => Ok (map (fun kv => PStr (fst kv)) (map_to_list m))
  | PStr s => Ok (chars s)
  | _ => Err TypeError
  end.

Definition row : Type := list pyval.

(** ** The text of the output file *)

(** [csv.writer] with its default dialect: fields joined by commas, a field
    quoted when it holds a comma, a quote, a carriage return or a line feed,
    quotes inside it doubled, every row ended by CR LF. *)
Section Csv.

(** [str] of a list or a dictionary, which the writer applies to a field
    that is neither a string nor a number. *)
Variable container_str : pyval -> string.

Definition Z_to_string (z : Z) : string :=
  NilZero.string_of_int (Z.to_int z).

Definition text (v : pyval) : string :=
  match v with
  | PNone => EmptyString
  | PBool true => "True"
  | PBool false => "False"
  | PInt z => Z_to_string z
  | PFloat repr => repr
  | PStr s => s
  | PList _ | PDict _ => container_str v
  end.

Definition dquote : ascii := "034"%char.

Definition special (c : ascii) : bool :=
  Ascii.eqb c ","%char || Ascii.eqb c dquote
  || Ascii.eqb c "013"%char || Ascii.eqb c "010"%char.

Fixpoint doubled (s : string) : string :=
  match s with
  | EmptyString => EmptyString
  | String c s' =>
      if Ascii.eqb c dquote then String c (String c (doubled s'))
      else String c (doubled s')
  end.

Definition quoted (s : string) : string :=
  String dquote (doubled s ++ String dquote EmptyString).

Definition field (v : pyval) : string :=
  let t := text v in
  if existsb special (list_ascii_of_string t) then quoted t else t.

(** A row of one empty field is written as a pair of quotes. *)
Definition line (r : row) : string :=
  match r with
  | [v] => if String.eqb (text v) EmptyString then quoted EmptyString else field v
  | _ => String.concat "," (map field r)
  end.

Definition CRLF : string := String "013" (String "010" EmptyString).

Definition csv_lines (rows : list row) : list string := map line rows.

Definition csv_text (rows : list row) : string :=
  String.concat EmptyString (map (fun r => line r ++ CRLF) rows).

End Csv.

(** ** The encoding of the output file *)

(** A Python [str] is carried as the bytes of its UTF-8 form; a surrogate
    code point, which [json.loads] accepts from an escape such as
    [\ud800], as the three bytes that form would give it.

    What differs from one machine to the next: [py_str] is [str] of a list
    or a dictionary, and [can_encode] tells whether the encoding of the
    output file (the locale's, since [io.open] is given none) has every
    character of a text that is not plain ASCII. *)
Record platform : Type := mkPlatform {
  py_str : pyval -> string;
  can_encode : string -> bool
}.

Definition is_ascii_char (c : ascii) : bool :=
  match c with
  | Ascii _ _ _ _ _ _ _ b7 => negb b7
  end.

(** Plain ASCII text can be written whatever the encoding. *)
Definition encodable (pf : platform) (s : string) : bool :=
  forallb is_ascii_char (list_ascii_of_string s) || can_encode pf s.

(** [csvwriter.writerow(r)] hands the line of [r] with its end to
    [csv_output.write], which encodes it. *)
Definition writable (pf : platform) (r : row) : bool :=
  encodable pf (line (py_str pf) r ++ CRLF).

(** The first byte of the UTF-8 form of a surrogate is 237 and its second
    byte is 160 or more. *)
Fixpoint has_surrogate (s : string) : bool :=
  match s with
  | String a ((String b _) as s') =>
      (Ascii.eqb a "237"%char && (160 <=? Z.of_nat (nat_of_ascii b)))
      || has_surrogate s'
  | _ => false
  end.

(** A machine whose output files are UTF-8: every text without a
    surrogate can be written.  Its [py_str] stands for [str]; the samples
    below do not depend on it. *)
Definition utf8_locale : platform :=
  mkPlatform (fun _ => "{}") (fun s => negb (has_surrogate s)).

(** ** The state of a run *)

(** [out]: the rows handed to [csvwriter.writerow] so far, oldest first;
    [write_index]: the script's flag; [opened]: the names given to the
    reading [io.open], oldest first; [printed]: the lines printed. *)
Record state : Type := mkState {
  out : list row;
  write_index : Z;
  opened : list string;
  printed : list string
}.

(** A statement either finishes with a value or raises; in both cases the
    state reached is kept: what was written stays written. *)
Definition M (A : Type) : Type := state -> result A * state.

Definition ret {A} (a : A) : M A := fun st => (Ok a, st).

Definition bind {A B} (m : M A) (k : A -> M B) : M B :=
  fun st =>
    match m st with
    | (Ok a, st') => k a st'
    | (Err e, st') => (Err e, st')
    end.

Definition lift {A} (r : result A) : M A := fun st => (r, st).

Declare Scope py_scope.
Delimit Scope py_scope with py.
Notation "x <- c1 ;; c2" := (bind c1 (fun x => c2))
  (at level 100, c1 at next level, right associativity) : py_scope.
Notation "c1 ;; c2" := (bind c1 (fun _ => c2))
  (at level 100, right associativity) : py_scope.

(** [for a in l: body] *)
Fixpoint for_ {A} (l : list A) (body : A -> M unit) : M unit :=
  match l with
  | [] => ret tt
  | a :: l' => (body a ;; for_ l' body)%py
  end.

(** [csvwriter.writerow(r)]: the whole line is written, or the encoder
    raises and nothing of it is. *)
Definition writerow (pf : platform) (r : row) : M unit :=
  fun st =>
    if writable pf r
    then (Ok tt, mkState (out st ++ [r]) (write_index st) (opened st) (printed st))
    else (Err UnicodeEncodeError, st).

Definition get_write_index : M Z :=
  fun st => (Ok (write_index st), st).

Definition set_write_index (z : Z) : M unit :=
  fun st => (Ok tt, mkState (out st) z (opened st) (printed st)).

(** [print(...)] of a progress line; the names of the listing are taken to
    be text the standard output can show. *)
Definition print (line : string) : M unit :=
  fun st => (Ok tt, mkState (out st) (write_index st) (opened st) (printed st ++ [line])).

(** ** The data directory *)

(** Why [json.loads] rejects a text: it is not JSON, or it holds an
    integer of more digits than [int] converts, or it is nested deeper
    than the interpreter recurses. *)
Inductive rejection : Type :=
  | NotJson
  | IntegerTooLong
  | NestedTooDeep.

Definition raised_for (why : rejection) : exn :=
  match why with
  | NotJson => JSONDecodeError
  | IntegerTooLong => ValueError
  | NestedTooDeep => RecursionError
  end.

(** What reading a file of the directory leads to: [io.open] fails, or
    [json.loads] rejects the text, or it returns a value. *)
Inductive file : Type :=
  | Unreadable
  | Malformed (why : rejection)
  | Json (v : pyval).

(** [listdir] is the listing of [DATA_PATH] in the order [os.listdir]
    gives it; [content f] is the file [DATA_PATH + f]. *)
Record directory : Type := mkDir {
  listdir : list string;
  content : string -> file
}.

(** [io.open(join(DATA_PATH + f), "r", ...)] *)
Definition io_open (d : directory) (f : string) : M file :=
  fun st =>
    let st' := mkState (out st) (write_index st) (opened st ++ [f]) (printed st) in
    match content d f with
    | Unreadable => (Err OSError, st')
    | c => (Ok c, st')
    end.

(** [json.loads(readfile.read())] *)
Definition json_loads (c : file) : M pyval :=
  match c with
  | Json v => ret v
  | Malformed why => lift (Err (raised_for why))
  | Unreadable => lift (Err OSError)
  end.

(** The condition of the list comprehension that builds [files]. *)
Definition selected (f : string) : bool :=
  endswith f ".json"
  && negb (str_contains "TEST" f)
  && negb (str_contains "freeResp" f)
  && negb (str_contains "sliderData" f).

Definition files (d : directory) : list string :=
  List.filter selected (listdir d).

(** ** The script *)

(** The two scripts share every line but the header and the two lists
    [p1_vals] and [p2_vals]; these are the parameters of the section. *)
Section Script.

Variable pf : platform.
Variable header : row.
(** [vals parsed_data r] builds [(p1_vals, p2_vals)] for the round [r]. *)
Variable vals : pyval -> pyval -> result (row * row).

(** The body of [for r in round_data]. *)
Definition round_body (parsed_data r : pyval) : M unit :=
  (pv <- lift (vals parsed_data r) ;;
   writerow pf (fst pv) ;;
   writerow pf (snd pv))%py.

(** The body of [for f in files]. *)
Definition file_body (d : directory) (f : string) : M unit :=
  (readfile <- io_open d f ;;
   print ("Processing: " ++ f) ;;
   parsed_data <- json_loads readfile ;;
   round_data <- lift (getitem parsed_data "rounds") ;;
   wi <- get_write_index ;;
   (if wi =? 0
    then (writerow pf header ;; set_write_index 1)
    else ret tt) ;;
   rounds <- lift (iter round_data) ;;
   for_ rounds (round_body parsed_data))%py.

(** The body of [with io.open(output_file, "w") as csv_output]. *)
Definition main (d : directory) : M unit :=
  (set_write_index 0 ;;
   for_ (files d) (file_body d))%py.

(** Opening [output_file] with mode ["w"] empties it, whatever it held. *)
Definition open_w (previous : list row) : state :=
  mkState [] 0 [] [].

(** One run of the script in a working directory where [output_file]
    holds [previous] (the empty list when it does not exist). *)
Definition run (previous : list row) (d : directory) : result unit * state :=
  main d (open_w previous).

Definition output (previous : list row) (d : directory) : list row :=
  out (snd (run previous d)).

(** *** The trace of a run

    The same run read off the inputs alone, for a header that can be
    written: the data rows each loop writes and the way it ends. *)

(** The two lists of the round [r] are built and both are written. *)
Definition round_written (parsed_data r : pyval) : bool :=
  match vals parsed_data r with
  | Ok (p1_vals, p2_vals) => writable pf p1_vals && writable pf p2_vals
  | Err _ => false
  end.

(** The rows [for r in round_data] writes: two for each round up to the
    first one whose lists cannot be built or written, and of that one the
    first list when only the second cannot be written. *)
Fixpoint rounds_rows (parsed_data : pyval) (rounds : list pyval) : list row :=
  match rounds with
  | [] => []
  | r :: rounds' =>
      match vals parsed_data r with
      | Ok (p1_vals, p2_vals) =>
          if writable pf p1_vals
          then if writable pf p2_vals
               then p1_vals :: p2_vals :: rounds_rows parsed_data rounds'
               else [p1_vals]
          else []
      | Err _ => []
      end
  end.

Fixpoint rounds_result (parsed_data : pyval) (rounds : list pyval) : result unit :=
  match rounds with
  | [] => Ok tt
  | r :: rounds' =>
      match vals parsed_data r with
      | Ok (p1_vals, p2_vals) =>
          if writable pf p1_vals && writable pf p2_vals
          then rounds_result parsed_data rounds'
          else Err UnicodeEncodeError
      | Err e => Err e
      end
  end.

(** [parsed_data] and [round_data] of a file, or the exception raised
    before the header test is reached. *)
Definition session_rounds (c : file) : result (pyval * pyval) :=
  match c with
  | Unreadable => Err OSError
  | Malformed why => Err (raised_for why)
  | Json parsed_data =>
      (round_data <- getitem parsed_data "rounds" ;;
       Ok (parsed_data, round_data))%result
  end.

(** The file gets as far as the test [write_index == 0]. *)
Definition reaches_header_test (d : directory) (f : string) : bool :=
  match session_rounds (content d f) with
  | Ok _ => true
  | Err _ => false
  end.

Definition file_rows (d : directory) (f : string) : list row :=
  match session_rounds (content d f) with
  | Ok (parsed_data, round_data) =>
      match iter round_data with
      | Ok rounds => rounds_rows parsed_data rounds
      | Err _ => []
      end
  | Err _ => []
  end.

Definition file_result (d : directory) (f : string) : result unit :=
  (pr <- session_rounds (content d f) ;;
   rounds <- iter (snd pr) ;;
   rounds_result (fst pr) rounds)%result.

(** The data rows of the files [fs], in file order, up to the first
    exception. *)
Fixpoint data_rows (d : directory) (fs : list string) : list row :=
  match fs with
  | [] => []
  | f :: fs' =>
      file_rows d f ++
      match file_result d f with
      | Ok _ => data_rows d fs'
      | Err _ => []
      end
  end.

Fixpoint files_result (d : directory) (fs : list string) : result unit :=
  match fs with
  | [] => Ok tt
  | f :: fs' =>
      match file_result d f with
      | Ok _ => files_result d fs'
      | Err e => Err e
      end
  end.

(** The files [io.open] is called on: all up to and with the first one
    that raises. *)
Fixpoint files_opened (d : directory) (fs : list string) : list string :=
  match fs with
  | [] => []
  | f :: fs' =>
      f :: match file_result d f with
           | Ok _ => files_opened d fs'
           | Err _ => []
           end
  end.

(** The lines the run prints: one for each file it could open. *)
Definition file_printed (d : directory) (f : string) : list string :=
  match content d f with
  | Unreadable => []
  | _ => ["Processing: " ++ f]
  end.

Fixpoint files_printed (d : directory) (fs : list string) : list string :=
  match fs with
  | [] => []
  | f :: fs' =>
      file_printed d f ++
      match file_result d f with
      | Ok _ => files_printed d fs'
      | Err _ => []
      end
  end.

(** Some file opened by the run gets as far as the header test. *)
Fixpoint header_reached (d : directory) (fs : list string) : bool :=
  match fs with
  | [] => false
  | f :: fs' =>
      reaches_header_test d f ||
      match file_result d f with
      | Ok _ => header_reached d fs'
      | Err _ => false
      end
  end.

End Script.

(** ** Vocabulary of the properties *)

(** [sub] occurs in [s]. *)
Definition has_substring (sub s : string) : Prop :=
  exists a b : string, s = (a ++ sub ++ b)%string.

(** [s] ends with [suf]. *)
Definition has_suffix (suf s : string) : Prop :=
  exists a : string, s = (a ++ suf)%string.

(** The field of the row [r] under the column called [name]. *)
Fixpoint column {A} (header : row) (name : string) (r : list A) : option A :=
  match header, r with
  | h :: header', v :: r' =>
      if is_str name h then Some v else column header' name r'
  | _, _ => None
  end.

Definition NA : pyval := PStr "NA".

(** [v] is a dictionary that has every key of [ks]. *)
Definition has_keys (v : pyval) (ks : list string) : bool :=
  match v with
  | PDict m => forallb (fun k => bool_decide (is_Some (m !! k))) ks
  | _ => false
  end.

(** ** json_to_csv_v1.py *)

Module V1.

Definition EXPERIMENT : string := "rps_v1".
Definition output_file : string := EXPERIMENT ++ "_data.csv".

Definition header : row :=
  map PStr
    ["game_id"; "round_index"; "player_id"; "round_begin_ts";
     "player_move"; "player_rt"; "player_outcome"; "player_outcome_viewtime";
     "player_points"; "player_total"].

Definition p1_keys : list string :=
  ["game_id"; "round_index"; "player1_id"; "round_begin_ts";
   "player1_move"; "player1_rt"; "player1_outcome"; "player1_outcome_viewtime";
   "player1_points"; "player1_total"].

Definition p2_keys : list string :=
  ["game_id"; "round_index"; "player2_id"; "round_begin_ts";
   "player2_move"; "player2_rt"; "player2_outcome"; "player2_outcome_viewtime";
   "player2_points"; "player2_total"].

(** [p1_vals] and [p2_vals] are both built before either is written. *)
Definition vals (parsed_data r : pyval) : result (row * row) :=
  (p1_vals <- mapM (getitem r) p1_keys ;;
   p2_vals <- mapM (getitem r) p2_keys ;;
   Ok (p1_vals, p2_vals))%result.

(** A round record with every field the two lists look up. *)
Definition well_formed (r : pyval) : bool :=
  has_keys r (p1_keys ++ p2_keys).

End V1.

(** ** json_to_csv_v3.py *)

Module V3.

Definition EXPERIMENT : string := "rps_v3".
Definition output_file : string := EXPERIMENT ++ "_data.csv".

Definition header : row :=
  map PStr
    ["game_id"; "version"; "is_sona_autocredit"; "sona_experiment_id";
     "sona_credit_token"; "sona_survey_code";
     "round_index"; "player_id"; "is_bot"; "bot_strategy"; "bot_round_memory";
     "round_begin_ts"; "player_move"; "player_rt"; "player_outcome";
     "player_outcome_viewtime";
     "player_points"; "player_total"].

(** An item of a list display: [r[k]], [parsed_data[k]], or an expression
    that needs no lookup (a literal or a local variable). *)
Inductive item : Type :=
  | R (k : string)
  | S (k : string)
  | V (v : pyval).

Definition eval (parsed_data r : pyval) (i : item) : result pyval :=
  match i with
  | R k => getitem r k
  | S k => getitem parsed_data k
  | V v => Ok v
  end.

(** [if k in r: x = r[k]] / [else: x = "NA"] *)
Definition get_or_NA (r : pyval) (k : string) : result pyval :=
  (present <- contains r k ;;
   if present : bool then getitem r k else Ok (PStr "NA"))%result.

Definition p1_items : list item :=
  [R "game_id";
   S "version"; S "sona"; S "experiment_id"; S "credit_token"; S "survey_code";
   R "round_index"; R "player1_id"; V (PInt 0);
   S "player2_bot_strategy"; V (PStr "NA");
   R "round_begin_ts";
   R "player1_move"; R "player1_rt"; R "player1_outcome"; R "player1_outcome_viewtime";
   R "player1_points"; R "player1_total"].

Definition p2_items (memory_struct player2_move : pyval) : list item :=
  [R "game_id";
   S "version"; S "sona"; S "experiment_id"; S "credit_token"; S "survey_code";
   R "round_index"; S "player2_botid"; V (PInt 1);
   S "player2_bot_strategy";
   V memory_struct;
   R "round_begin_ts";
   V player2_move;
   R "player2_rt"; R "player2_outcome"; R "player2_outcome_viewtime";
   R "player2_points"; R "player2_total"].

Definition vals (parsed_data r : pyval) : result (row * row) :=
  (memory_struct <- get_or_NA r "player2_memory_struct" ;;
   player2_move <- get_or_NA r "player2_move" ;;
   p1_vals <- mapM (eval parsed_data r) p1_items ;;
   p2_vals <- mapM (eval parsed_data r) (p2_items memory_struct player2_move) ;;
   Ok (p1_vals, p2_vals))%result.

(** The keys the items look up in the round and in the session. *)
Fixpoint round_keys (l : list item) : list string :=
  match l with
  | [] => []
  | R k :: l' => k :: round_keys l'
  | _ :: l' => round_keys l'
  end.

Fixpoint session_keys (l : list item) : list string :=
  match l with
  | [] => []
  | S k :: l' => k :: session_keys l'
  | _ :: l' => session_keys l'
  end.

Definition items : list item := p1_items ++ p2_items NA NA.

Definition required_round_keys : list string := round_keys items.
Definition required_session_keys : list string := session_keys items.

(** A session record and a round record with every field the two lists
    look up; [player2_memory_struct] and [player2_move] are not among
    them. *)
Definition well_formed (parsed_data r : pyval) : bool :=
  has_keys parsed_data required_session_keys && has_keys r required_round_keys.

(** What an item reads, as a lookup in the session [s] and the round [m]. *)
Definition source (s m : gmap string pyval) (i : item) : option pyval :=
  match i with
  | R k => m !! k
  | S k => s !! k
  | V v => Some v
  end.

End V3.

(** ** The two scripts *)

Inductive version : Type := v1 | v3.

Definition header_of (v : version) : row :=
  match v with
  | v1 => V1.header
  | v3 => V3.header
  end.

Definition vals_of (v : version) : pyval -> pyval -> result (row * row) :=
  match v with
  | v1 => V1.vals
  | v3 => V3.vals
  end.

Definition output_file_of (v : version) : string :=
  match v with
  | v1 => V1.output_file
  | v3 => V3.output_file
  end.

(** One run of the script of version [v] on the machine [pf]: how it
    ends and the state it leaves. *)
Definition script (pf : platform) (v : version)
  : list row -> directory -> result unit * state :=
  run pf (header_of v) (vals_of v).

(** The rows in [output_file] after the run. *)
Definition csv_rows (pf : platform) (v : version)
  : list row -> directory -> list row :=
  output pf (header_of v) (vals_of v).

(** Whatever lists the round [r] yields can be written to the output
    file. *)
Definition rows_writable (pf : platform) (v : version) (parsed_data r : pyval) : bool :=
  match vals_of v parsed_data r with
  | Ok (p1_vals, p2_vals) => writable pf p1_vals && writable pf p2_vals
  | Err _ => true
  end.

(** The round record [r] of the session [parsed_data] has every field the
    script of version [v] requires. *)
Definition well_formed (v : version) (parsed_data r : pyval) : bool :=
  match v with
  | v1 => V1.well_formed r
  | v3 => V3.well_formed parsed_data r
  end.

(** The keys the script of version [v] requires in a round record. *)
Definition required_round_keys (v : version) : list string :=
  match v with
  | v1 => (V1.p1_keys ++ V1.p2_keys)%list
  | v3 => V3.required_round_keys
  end.

(** ** The session of scenario A *)

Definition g1_round_fields : gmap string pyval :=
  list_to_map
    [("game_id", PStr "g1"); ("round_index", PInt 0);
     ("player1_id", PStr "p1"); ("player2_id", PStr "p2");
     ("round_begin_ts", PInt 100);
     ("player1_move", PStr "rock"); ("player2_move", PStr "scissors");
     ("player1_rt", PInt 500); ("player2_rt", PInt 600);
     ("player1_outcome", PStr "win"); ("player2_outcome", PStr "lose");
     ("player1_outcome_viewtime", PInt 200); ("player2_outcome_viewtime", PInt 200);
     ("player1_points", PInt 1); ("player2_points", PInt 0);
     ("player1_total", PInt 1); ("player2_total", PInt 0)].

Definition g1_round : pyval := PDict g1_round_fields.

Definition g1_fields : gmap string pyval :=
  list_to_map [("rounds", PList [g1_round])].

Definition g1_json : pyval := PDict g1_fields.

(** A directory that holds [g1.json] and nothing else. *)
Definition g1_dir : directory :=
  mkDir ["g1.json"]
        (fun f => if String.eqb f "g1.json" then Json g1_json else Unreadable).

(** ** Sessions of version 3 *)

(** A round of a session against the bot that has neither [player2_move]
    nor [player2_memory_struct]. *)
Definition nash_round_fields : gmap string pyval :=
  list_to_map
    [("game_id", PStr "g3"); ("round_index", PInt 4);
     ("player1_id", PStr "h1");
     ("round_begin_ts", PInt 1700);
     ("player1_move", PStr "paper");
     ("player1_rt", PInt 420); ("player2_rt", PInt 0);
     ("player1_outcome", PStr "win"); ("player2_outcome", PStr "loss");
     ("player1_outcome_viewtime", PInt 900); ("player2_outcome_viewtime", PInt 0);
     ("player1_points", PInt 3); ("player2_points", PInt (-1));
     ("player1_total", PInt 7); ("player2_total", PInt 2)].

(** The same round with both optional fields. *)
Definition memory_round_fields : gmap string pyval :=
  <["player2_memory_struct" := PDict (list_to_map [("rock", PInt 2); ("paper", PInt 1)])]>
    (<["player2_move" := PStr "rock"]> nash_round_fields).

Definition nash_session_fields (rounds : list pyval) : gmap string pyval :=
  list_to_map
    [("version", PInt 3); ("sona", PBool false);
     ("experiment_id", PStr "e"); ("credit_token", PStr "t");
     ("survey_code", PStr "c");
     ("player2_bot_strategy", PStr "nash"); ("player2_botid", PStr "bot7");
     ("rounds", PList rounds)].



(** A directory with the session of scenario A and then a session without
    the key [rounds]. *)
Definition two_files_dir : directory :=
  mkDir ["g1.json"; "g2.json"]
        (fun f => if String.eqb f "g1.json" then Json g1_json else Json (PDict ∅)).



(** ** A round with a string UTF-8 cannot write *)







(** ** Statements about one file *)


(** ** Statements about an aborted run *)

(** The run of version [v] ends with the exception [e] raised in the file
    [f], reached after the files [pre]: no file after [f] is opened, and the
    output holds the header (when [hdr] is true), the data rows of the files
    [pre], and the rows [rows] written for [f] before the exception. *)
Definition aborts_in (pf : platform) (v : version) (previous : list row)
    (d : directory)
    (pre : list string) (f : string) (e : exn) (hdr : bool) (rows : list row) : Prop :=
  fst (script pf v previous d) = Err e
  /\ opened (snd (script pf v previous d)) = (pre ++ [f])%list
  /\ csv_rows pf v previous d =
     ((if hdr then [header_of v] else [])
      ++ data_rows pf (vals_of v) d pre ++ rows)%list.




Definition nonempty {A} (l : list A) : bool :=
  match l with
  | [] => false
  | _ :: _ => true
  end.

(** ** Statements about whole runs *)

(** The line printed for the file [f]. *)
Definition progress_line (f : string) : string := "Processing: " ++ f.



(** The file [f] holds a session dictionary whose [rounds] is a list of
    well-formed round records, with rows that can be written. *)
Definition good_file (pf : platform) (v : version) (d : directory) (f : string) : Prop :=
  exists (m : gmap string pyval) (rounds : list pyval),
    content d f = Json (PDict m)
    /\ m !! "rounds" = Some (PList rounds)
    /\ Forall (fun r => well_formed v (PDict m) r = true
                       /\ rows_writable pf v (PDict m) r = true) rounds.

(** The rows of a list of pairs, the first of a pair before the second. *)
Fixpoint pair_rows (prs : list (row * row)) : list row :=
  match prs with
  | [] => []
  | (p1_vals, p2_vals) :: prs' => p1_vals :: p2_vals :: pair_rows prs'
  end.



Definition is_dict (v : pyval) : bool :=
  match v with
  | PDict _ => true
  | _ => false
  end.

(** The columns whose value does not depend on the player. *)
Definition shared_columns (v : version) : list string :=
  match v with
  | v1 => ["game_id"; "round_index"; "round_begin_ts"]
  | v3 => ["game_id"; "version"; "is_sona_autocredit"; "sona_experiment_id";
           "sona_credit_token"; "sona_survey_code"; "round_index";
           "bot_strategy"; "round_begin_ts"]
  end.

(** A directory with the session of scenario A in [a.json] and the file
    [c] as [b.json]. *)
Definition second_file_dir (c : file) : directory :=
  mkDir ["a.json"; "b.json"]
        (fun f => if String.eqb f "a.json" then Json g1_json else c).

(** The first element of [l] that [g] finds nothing for. *)
Fixpoint first_none {A} (g : A -> option pyval) (l : list A) : option A :=
  match l with
  | [] => None
  | a :: l' =>
      match g a with
      | None => Some a
      | Some _ => first_none g l'
      end
  end.

(** The key an item of version 3 looks up. *)
Definition item_key (i : V3.item) : string :=
  match i with
  | V3.R k => k
  | V3.S k => k
  | V3.V _ => EmptyString
  end.

(** ** Strings *)

Lemma append_nil_l (s : string) : String.append EmptyString s = s.
Proof. reflexivity. Qed.

Lemma append_cons_l (c : ascii) (a s : string) :
  String.append (String c a) s = String c (String.append a s).
Proof. reflexivity. Qed.

Ltac norm_append :=
  repeat (rewrite ?append_nil_l, ?append_cons_l in *).

Lemma startswith_spec (s p : string) :
  startswith s p = true <-> exists t : string, s = (p ++ t)%string.
Proof.
  revert s. induction p as [|a p IH]; intros s; simpl.
  - split; [intros _; exists s; reflexivity | reflexivity].
  - destruct s as [|b s].
    + split; [discriminate | intros [t Ht]; discriminate].
    + rewrite andb_true_iff, Ascii.eqb_eq, IH. split.
      * intros [-> [t ->]]. exists t. reflexivity.
      * intros [t Ht]. rewrite append_cons_l in Ht. injection Ht as -> ->.
        split; [reflexivity | exists t; reflexivity].
Qed.

Lemma endswith_spec (s suf : string) :
  endswith s suf = true <-> has_suffix suf s.
Proof.
  unfold has_suffix. induction s as [|c s IH]; cbn [endswith].
  - rewrite orb_false_r, String.eqb_eq. split.
    + intros <-. exists EmptyString. reflexivity.
    + intros [a Ha]. destruct a; norm_append; [congruence | discriminate].
  - rewrite orb_true_iff, String.eqb_eq, IH. split.
    + intros [<- | [a ->]].
      * exists EmptyString. reflexivity.
      * exists (String c a). reflexivity.
    + intros [a Ha]. destruct a as [|c' a]; norm_append.
      * left. congruence.
      * right. injection Ha as _ ->. exists a. reflexivity.
Qed.

Lemma str_contains_spec (sub s : string) :
  str_contains sub s = true <-> has_substring sub s.
Proof.
  unfold has_substring. induction s as [|c s IH]; cbn [str_contains].
  - rewrite orb_false_r, startswith_spec. split.
    + intros [t Ht]. exists EmptyString, t. exact Ht.
    + intros [a [b Hab]]. destruct a; norm_append.
      * exists b. exact Hab.
      * discriminate.
  - rewrite orb_true_iff, startswith_spec, IH. split.
    + intros [[t Ht] | [a [b ->]]].
      * exists EmptyString, t. exact Ht.
      * exists (String c a), b. reflexivity.
    + intros [a [b Hab]]. destruct a as [|c' a]; norm_append.
      * left. exists b. exact Hab.
      * right. injection Hab as _ ->. exists a, b. reflexivity.
Qed.

Lemma str_contains_false (sub s : string) :
  str_contains sub s = false <-> ~ has_substring sub s.
Proof.
  rewrite <- str_contains_spec. destruct (str_contains sub s); split; intros H;
    try reflexivity; try discriminate; try (intros H'; discriminate).
  exfalso. apply H. reflexivity.
Qed.

Lemma selected_spec (f : string) :
  selected f = true <->
  has_suffix ".json" f
  /\ ~ has_substring "TEST" f
  /\ ~ has_substring "freeResp" f
  /\ ~ has_substring "sliderData" f.
Proof.
  unfold selected.
  rewrite !andb_true_iff, !negb_true_iff, endswith_spec, !str_contains_false.
  tauto.
Qed.

(** ** List displays *)

Lemma mapM_Ok_inv {A B} (f : A -> result B) (l : list A) (bs : list B) :
  mapM f l = Ok bs -> Forall2 (fun a b => f a = Ok b) l bs.
Proof.
  revert bs. induction l as [|a l IH]; simpl; intros bs H.
  - injection H as <-. constructor.
  - destruct (f a) as [b|e] eqn:Hfa; simpl in H; [|discriminate].
    destruct (mapM f l) as [bs'|e]; simpl in H; [|discriminate].
    injection H as <-. constructor; [exact Hfa | apply IH; reflexivity].
Qed.

(** Every exception a list display raises is one an item raised. *)
Lemma mapM_Err_inv {A B} (f : A -> result B) (l : list A) (e : exn) :
  mapM f l = Err e -> exists a, In a l /\ f a = Err e.
Proof.
  induction l as [|a l IH]; simpl; [discriminate|].
  destruct (f a) as [b|e'] eqn:Hfa; simpl.
  - destruct (mapM f l) as [bs|e'']; simpl; [discriminate|].
    intros H. injection H as ->. destruct IH as [a' [Hin Ha']]; [reflexivity|].
    exists a'. split; [right; exact Hin | exact Ha'].
  - intros H. injection H as ->. exists a. split; [left; reflexivity | exact Hfa].
Qed.

(** An item that raises makes the whole display raise. *)
Lemma mapM_raises {A B} (f : A -> result B) (l : list A) (a : A) (e : exn) :
  In a l -> f a = Err e -> exists e', mapM f l = Err e'.
Proof.
  intros Hin Hfa. destruct (mapM f l) as [bs|e'] eqn:HM; [|exists e'; reflexivity].
  apply mapM_Ok_inv in HM. exfalso.
  induction HM as [|a' b l bs Hab _ IH]; [destruct Hin|].
  destruct Hin as [-> | Hin]; [congruence | exact (IH Hin)].
Qed.

Lemma mapM_ext {A B} (f g : A -> result B) (l : list A) :
  (forall a, In a l -> f a = g a) -> mapM f l = mapM g l.
Proof.
  induction l as [|a l IH]; intros H; cbn [mapM]; [reflexivity|].
  rewrite (H a (or_introl eq_refl)), IH; [reflexivity|].
  intros b Hb. apply H. right. exact Hb.
Qed.

(** ** Lookups in dictionaries *)

Lemma has_keys_spec (m : gmap string pyval) (ks : list string) :
  has_keys (PDict m) ks = true <-> Forall (fun k => is_Some (m !! k)) ks.
Proof.
  simpl. rewrite forallb_forall, List.Forall_forall.
  split; intros H k Hk; specialize (H k Hk).
  - apply bool_decide_eq_true in H. exact H.
  - apply bool_decide_eq_true. exact H.
Qed.

Lemma has_keys_dict (v : pyval) (ks : list string) :
  has_keys v ks = true -> exists m, v = PDict m.
Proof. destruct v; simpl; try discriminate. intros _. eexists; reflexivity. Qed.

Lemma has_keys_app (v : pyval) (ks ks' : list string) :
  has_keys v (ks ++ ks') = has_keys v ks && has_keys v ks'.
Proof. destruct v; simpl; try reflexivity. apply forallb_app. Qed.

Lemma getitem_Ok (m : gmap string pyval) (k : string) (v : pyval) :
  getitem (PDict m) k = Ok v <-> m !! k = Some v.
Proof.
  simpl. destruct (m !! k); split; intros H; try discriminate; congruence.
Qed.

Lemma getitem_Err (v : pyval) (k : string) (e : exn) :
  getitem v k = Err e ->
  match v with
  | PDict m => m !! k = None /\ e = KeyError k
  | _ => e = TypeError
  end.
Proof.
  destruct v; simpl; try congruence.
  destruct (m !! k); [discriminate|]. intros H. split; congruence.
Qed.

Lemma getitem_Ok_dict (v : pyval) (k : string) (x : pyval) :
  getitem v k = Ok x -> exists m, v = PDict m.
Proof. destruct v; simpl; try discriminate. intros _. eexists; reflexivity. Qed.

(** A list display whose items are lookups succeeds exactly when every
    lookup finds a value, and then holds the values found. *)
Lemma mapM_lookup {A} (f : A -> result pyval) (g : A -> option pyval) :
  (forall a v, f a = Ok v <-> g a = Some v) ->
  forall l vs, mapM f l = Ok vs <-> map Some vs = map g l.
Proof.
  intros Hfg l. induction l as [|a l IH]; intros vs; simpl.
  - split.
    + intros H. injection H as <-. reflexivity.
    + destruct vs; [reflexivity | discriminate].
  - split.
    + destruct (f a) as [v|e] eqn:Hfa; simpl; [|discriminate].
      destruct (mapM f l) as [vs'|e] eqn:HM; simpl; [|discriminate].
      intros H. injection H as <-. simpl.
      apply Hfg in Hfa. rewrite Hfa. f_equal. apply IH. reflexivity.
    + destruct vs as [|v vs]; simpl; [discriminate|].
      intros H. injection H as Hv Hvs. symmetry in Hv. apply Hfg in Hv.
      rewrite Hv. simpl. apply IH in Hvs. rewrite Hvs. reflexivity.
Qed.

Lemma lookups_total {A} (g : A -> option pyval) (l : list A) :
  Forall (fun a => is_Some (g a)) l -> exists vs, map Some vs = map g l.
Proof.
  induction 1 as [|a l [v Hv] _ [vs IH]].
  - exists []. reflexivity.
  - exists (v :: vs). simpl. rewrite Hv, IH. reflexivity.
Qed.

Lemma lookups_all {A} (g : A -> option pyval) (l : list A) (vs : list pyval) :
  map Some vs = map g l -> Forall (fun a => is_Some (g a)) l.
Proof.
  revert vs. induction l as [|a l IH]; intros vs H; [constructor|].
  destruct vs as [|v vs]; [discriminate|]. simpl in H. injection H as Hv Hvs.
  constructor; [exists v; congruence | exact (IH vs Hvs)].
Qed.

Lemma column_map {A B} (g : A -> B) (header : row) (name : string) (r : list A) :
  column header name (map g r) = option_map g (column header name r).
Proof.
  revert r. induction header as [|h header IH]; intros [|a r]; simpl; try reflexivity.
  destruct (is_str name h); [reflexivity | apply IH].
Qed.

(** Reading a column of a row whose fields are known as lookups. *)
Lemma column_of_lookups (header : row) (name : string) (r : row)
      (os : list (option pyval)) (o : option pyval) :
  map Some r = os ->
  column header name os = Some o ->
  column header name r = o.
Proof.
  intros <-. rewrite column_map.
  destruct (column header name r); simpl; congruence.
Qed.

(** ** The loops of the script, on any machine and for either version *)

(** Both headers are plain ASCII. *)
Lemma header_writable (pf : platform) (v : version) :
  writable pf (header_of v) = true.
Proof. destruct v; reflexivity. Qed.

Lemma writerow_eq (pf : platform) (r : row) (st : state) :
  writerow pf r st =
  if writable pf r
  then (Ok tt, mkState (out st ++ [r]) (write_index st) (opened st) (printed st))
  else (Err UnicodeEncodeError, st).
Proof. reflexivity. Qed.

Section Loops.

Variable pf : platform.
Variable v : version.

Local Abbreviation header := (header_of v).
Local Abbreviation vals := (vals_of v).

Lemma bind_eq {A B} (m : M A) (k : A -> M B) (st : state) :
  bind m k st =
  match m st with
  | (Ok a, st') => k a st'
  | (Err e, st') => (Err e, st')
  end.
Proof. reflexivity. Qed.

Lemma for_rounds (parsed_data : pyval) (rounds : list pyval) (st : state) :
  for_ rounds (round_body pf vals parsed_data) st =
  (rounds_result pf vals parsed_data rounds,
   mkState (out st ++ rounds_rows pf vals parsed_data rounds)
           (write_index st) (opened st) (printed st)).
Proof.
  revert st. induction rounds as [|r rounds IH]; intros st;
    cbn [for_ rounds_result rounds_rows].
  - unfold ret. rewrite app_nil_r. destruct st; reflexivity.
  - rewrite bind_eq. unfold round_body at 1. rewrite !bind_eq. unfold lift.
    destruct (vals parsed_data r) as [[p1 p2]|e]; cbn [fst snd].
    + rewrite bind_eq, writerow_eq. destruct (writable pf p1); cbn [andb].
      * rewrite writerow_eq. destruct (writable pf p2).
        -- rewrite IH. cbn [out write_index opened printed].
           rewrite <- !app_assoc. reflexivity.
        -- reflexivity.
      * rewrite app_nil_r. destruct st; reflexivity.
    + rewrite app_nil_r. destruct st; reflexivity.
Qed.

Lemma file_body_trace (d : directory) (f : string) (st : state) :
  let r := file_body pf header vals d f st in
  fst r = file_result pf vals d f /\
  out (snd r) =
    (out st
     ++ (if (write_index st =? 0) && reaches_header_test d f then [header] else [])
     ++ file_rows pf vals d f)%list /\
  write_index (snd r) =
    (if (write_index st =? 0) && reaches_header_test d f then 1 else write_index st) /\
  opened (snd r) = (opened st ++ [f])%list.
Proof.
  cbv [file_body file_result file_rows reaches_header_test session_rounds
       bind lift ret rbind io_open print json_loads
       get_write_index set_write_index writerow].
  rewrite (header_writable pf v).
  destruct (content d f) as [|why|parsed_data]; simpl.
  1, 2: rewrite andb_false_r, app_nil_r; repeat split; reflexivity.
  destruct (getitem parsed_data "rounds") as [round_data|e]; simpl.
  2: { rewrite andb_false_r, app_nil_r. repeat split; reflexivity. }
  rewrite andb_true_r.
  destruct (write_index st =? 0) eqn:Hwi; simpl;
    (destruct (iter round_data) as [rounds|e]; simpl;
     [ rewrite for_rounds; simpl; rewrite <- ?app_assoc
     | rewrite ?app_nil_r ]; repeat split; reflexivity).
Qed.

Lemma file_result_Ok_reaches (d : directory) (f : string) (u : unit) :
  file_result pf vals d f = Ok u -> reaches_header_test d f = true.
Proof.
  unfold file_result, reaches_header_test.
  destruct (session_rounds (content d f)); [reflexivity | discriminate].
Qed.

Lemma for_files (d : directory) (fs : list string) (st : state) :
  let r := for_ fs (file_body pf header vals d) st in
  fst r = files_result pf vals d fs /\
  out (snd r) =
    (out st
     ++ (if (write_index st =? 0) && header_reached pf vals d fs then [header] else [])
     ++ data_rows pf vals d fs)%list /\
  write_index (snd r) =
    (if (write_index st =? 0) && header_reached pf vals d fs then 1 else write_index st) /\
  opened (snd r) = (opened st ++ files_opened pf vals d fs)%list.
Proof.
  revert st. induction fs as [|f fs IH]; intros st; simpl.
  - rewrite andb_false_r, !app_nil_r. repeat split; reflexivity.
  - rewrite !bind_eq.
    destruct (file_body_trace d f st) as (Hres & Hout & Hwi & Hop).
    destruct (file_body pf header vals d f st) as [res st1]; simpl in *.
    rewrite <- Hres. destruct res as [u|e]; simpl.
    + symmetry in Hres. apply file_result_Ok_reaches in Hres. rewrite Hres in *.
      rewrite andb_true_r in *. simpl.
      destruct (IH st1) as (IHres & IHout & IHwi & IHop).
      rewrite IHres, IHout, IHwi, IHop, Hout, Hwi, Hop.
      destruct (write_index st =? 0) eqn:Hz; simpl.
      * rewrite <- !app_assoc. simpl. repeat split; reflexivity.
      * rewrite Hz. simpl. rewrite <- !app_assoc. simpl. repeat split; reflexivity.
    + rewrite orb_false_r, app_nil_r, Hout, Hwi, Hop. repeat split; reflexivity.
Qed.

(** The whole run, read off the inputs. *)
Lemma run_trace (previous : list row) (d : directory) :
  let r := run pf header vals previous d in
  fst r = files_result pf vals d (files d) /\
  out (snd r) =
    ((if header_reached pf vals d (files d) then [header] else [])
     ++ data_rows pf vals d (files d))%list /\
  opened (snd r) = files_opened pf vals d (files d).
Proof.
  cbv zeta. unfold run, main, open_w. rewrite bind_eq. unfold set_write_index.
  cbv beta iota.
  destruct (for_files d (files d) (mkState [] 0 [] [])) as (Hres & Hout & _ & Hop).
  simpl in Hres, Hout, Hop. repeat split; assumption.
Qed.

Lemma file_body_printed (d : directory) (f : string) (st : state) :
  printed (snd (file_body pf header vals d f st)) = (printed st ++ file_printed d f)%list.
Proof.
  cbv [file_body file_printed bind lift ret rbind io_open print json_loads
       get_write_index set_write_index writerow].
  rewrite (header_writable pf v).
  destruct (content d f) as [|why|parsed_data]; simpl.
  1: rewrite app_nil_r; reflexivity.
  1: reflexivity.
  destruct (getitem parsed_data "rounds") as [round_data|e]; simpl; [|reflexivity].
  destruct (write_index st =? 0); simpl;
    (destruct (iter round_data) as [rounds|e]; simpl;
     [rewrite for_rounds|]; reflexivity).
Qed.

Lemma for_files_printed (d : directory) (fs : list string) (st : state) :
  printed (snd (for_ fs (file_body pf header vals d) st))
  = (printed st ++ files_printed pf vals d fs)%list.
Proof.
  revert st. induction fs as [|f fs IH]; intros st; cbn [for_ files_printed].
  - unfold ret. cbn [snd]. rewrite app_nil_r. reflexivity.
  - rewrite bind_eq.
    destruct (file_body_trace d f st) as (Hres & _).
    assert (Hp := file_body_printed d f st).
    destruct (file_body pf header vals d f st) as [res st1]. cbn [fst snd] in Hres, Hp.
    rewrite <- Hres. destruct res as [u|e]; cbn [snd].
    + rewrite IH, Hp, <- app_assoc. reflexivity.
    + rewrite Hp, app_nil_r. reflexivity.
Qed.

(** Every line printed names a file the Scanner kept. *)
Lemma printed_selected (previous : list row) (d : directory) (l : string) :
  In l (printed (snd (run pf header vals previous d))) ->
  exists f, In f (files d) /\ l = ("Processing: " ++ f)%string.
Proof.
  unfold run, main, open_w. rewrite bind_eq. unfold set_write_index.
  cbv beta iota. rewrite for_files_printed. cbn [printed app].
  generalize (files d). intros fs. induction fs as [|f fs IH]; cbn [files_printed].
  - intros [].
  - intros H. apply in_app_or in H. destruct H as [H|H].
    + unfold file_printed in H. exists f. split; [left; reflexivity|].
      destruct (content d f); cbn [In] in H;
        [destruct H | destruct H as [H|[]]; symmetry; exact H ..].
    + destruct (file_result pf vals d f); [|destruct H].
      destruct (IH H) as (g & Hg & ->). exists g. split; [right; exact Hg | reflexivity].
Qed.



Lemma files_opened_incl (d : directory) (fs : list string) (f : string) :
  In f (files_opened pf vals d fs) -> In f fs.
Proof.
  induction fs as [|g fs IH]; simpl; [tauto|].
  intros [->|H]; [auto|]. right.
  destruct (file_result pf vals d g); [auto | destruct H].
Qed.

Lemma opened_selected (previous : list row) (d : directory) (f : string) :
  In f (opened (snd (run pf header vals previous d))) -> In f (files d).
Proof.
  destruct (run_trace previous d) as (_ & _ & Hop).
  cbv zeta in Hop. rewrite Hop. apply files_opened_incl.
Qed.

(** Every data row is one of the two lists of some round. *)
Lemma rounds_rows_from_vals (parsed_data : pyval) (rounds : list pyval) :
  Forall (fun rw => exists r p1 p2,
              vals parsed_data r = Ok (p1, p2) /\ (rw = p1 \/ rw = p2))
         (rounds_rows pf vals parsed_data rounds).
Proof.
  induction rounds as [|r rounds IH]; cbn [rounds_rows]; [constructor|].
  destruct (vals parsed_data r) as [[p1 p2]|e] eqn:Hr; [|constructor].
  destruct (writable pf p1); [|constructor].
  destruct (writable pf p2).
  - constructor; [exists r, p1, p2; auto|].
    constructor; [exists r, p1, p2; auto|]. exact IH.
  - constructor; [exists r, p1, p2; auto | constructor].
Qed.

Lemma data_rows_from_vals (d : directory) (fs : list string) :
  Forall (fun rw => exists parsed_data r p1 p2,
              vals parsed_data r = Ok (p1, p2) /\ (rw = p1 \/ rw = p2))
         (data_rows pf vals d fs).
Proof.
  induction fs as [|f fs IH]; simpl; [constructor|].
  apply Forall_app. split.
  - unfold file_rows.
    destruct (session_rounds (content d f)) as [[pd rd]|e]; [|constructor].
    destruct (iter rd) as [rounds|e]; [|constructor].
    eapply List.Forall_impl; [|apply rounds_rows_from_vals].
    intros rw (r & p1 & p2 & H). exists pd, r, p1, p2. exact H.
  - destruct (file_result pf vals d f); [exact IH | constructor].
Qed.

Lemma file_rows_nil (d : directory) (f : string) :
  reaches_header_test d f = false -> file_rows pf vals d f = [].
Proof.
  unfold reaches_header_test, file_rows.
  destruct (session_rounds (content d f)) as [[pd rd]|e]; [discriminate | reflexivity].
Qed.

Lemma data_rows_nil (d : directory) (fs : list string) :
  header_reached pf vals d fs = false -> data_rows pf vals d fs = [].
Proof.
  induction fs as [|f fs IH]; simpl; [reflexivity|].
  intros H. apply orb_false_iff in H. destruct H as [H1 H2].
  rewrite (file_rows_nil d f H1). simpl.
  destruct (file_result pf vals d f); [exact (IH H2) | reflexivity].
Qed.


(** The output of a run is empty or the header followed by the data
    rows. *)
Lemma output_shape (previous : list row) (d : directory) :
  (output pf header vals previous d = []
   /\ header_reached pf vals d (files d) = false)
  \/ (output pf header vals previous d = header :: data_rows pf vals d (files d)
      /\ header_reached pf vals d (files d) = true).
Proof.
  unfold output.
  destruct (run_trace previous d) as (_ & Hout & _).
  cbv zeta in Hout. rewrite Hout.
  destruct (header_reached pf vals d (files d)) eqn:Hh; [right; auto|left].
  rewrite (data_rows_nil d _ Hh). auto.
Qed.

Lemma after_ok_files (d : directory) (pre rest : list string) :
  Forall (fun g => file_result pf vals d g = Ok tt) pre ->
  files_result pf vals d (pre ++ rest) = files_result pf vals d rest
  /\ data_rows pf vals d (pre ++ rest)
     = (data_rows pf vals d pre ++ data_rows pf vals d rest)%list
  /\ files_opened pf vals d (pre ++ rest) = (pre ++ files_opened pf vals d rest)%list
  /\ header_reached pf vals d (pre ++ rest)
     = nonempty pre || header_reached pf vals d rest.
Proof.
  induction 1 as [|g pre Hg _ (IH1 & IH2 & IH3 & IH4)]; cbn [app].
  - repeat split; reflexivity.
  - cbn [files_result data_rows files_opened header_reached nonempty].
    rewrite Hg, IH1, IH2, IH3, (file_result_Ok_reaches d g tt Hg).
    rewrite <- app_assoc. repeat split; reflexivity.
Qed.



Lemma aborts_in_file (previous : list row) (d : directory)
      (pre : list string) (f : string) (post : list string) (e : exn) :
  files d = (pre ++ f :: post)%list ->
  Forall (fun g => file_result pf vals d g = Ok tt) pre ->
  file_result pf vals d f = Err e ->
  fst (run pf header vals previous d) = Err e
  /\ opened (snd (run pf header vals previous d)) = (pre ++ [f])%list
  /\ output pf header vals previous d =
     ((if nonempty pre || reaches_header_test d f then [header] else [])
      ++ data_rows pf vals d pre ++ file_rows pf vals d f)%list.
Proof.
  intros Hfiles Hpre Hf. unfold output.
  destruct (run_trace previous d) as (Hres & Hout & Hop).
  cbv zeta in Hres, Hout, Hop. rewrite Hres, Hout, Hop, Hfiles.
  destruct (after_ok_files d pre (f :: post) Hpre) as (-> & -> & -> & ->).
  cbn [files_result data_rows files_opened header_reached].
  rewrite Hf, orb_false_r, app_nil_r. repeat split; reflexivity.
Qed.


End Loops.

(** ** The two lists of a round *)

Lemma V1_vals_Ok_iff (parsed_data r : pyval) (p1 p2 : row) :
  V1.vals parsed_data r = Ok (p1, p2) <->
  exists m, r = PDict m
    /\ map Some p1 = map (fun k => m !! k) V1.p1_keys
    /\ map Some p2 = map (fun k => m !! k) V1.p2_keys.
Proof.
  unfold V1.vals. split.
  - intros H.
    destruct (mapM (getitem r) V1.p1_keys) as [q1|e] eqn:H1; [|discriminate].
    destruct (mapM (getitem r) V1.p2_keys) as [q2|e] eqn:H2; [|discriminate].
    simpl in H. injection H as -> ->.
    destruct r as [| | | | | |m]; try (cbn in H1; discriminate).
    exists m. split; [reflexivity|].
    split; eapply mapM_lookup; eauto using getitem_Ok.
  - intros (m & -> & H1 & H2).
    apply (mapM_lookup (getitem (PDict m)) _ (getitem_Ok m)) in H1, H2.
    rewrite H1, H2. reflexivity.
Qed.

Lemma V1_well_formed_total (parsed_data r : pyval) :
  V1.well_formed r = true -> exists p1 p2, V1.vals parsed_data r = Ok (p1, p2).
Proof.
  unfold V1.well_formed. intros H.
  destruct (has_keys_dict _ _ H) as [m ->].
  apply has_keys_spec, Forall_app in H. destruct H as [H1 H2].
  apply lookups_total in H1, H2. destruct H1 as [p1 H1], H2 as [p2 H2].
  exists p1, p2. apply V1_vals_Ok_iff. exists m. auto.
Qed.

Lemma V1_vals_Ok_well_formed (parsed_data r : pyval) (p : row * row) :
  V1.vals parsed_data r = Ok p -> V1.well_formed r = true.
Proof.
  destruct p as [p1 p2]. intros H. apply V1_vals_Ok_iff in H.
  destruct H as (m & -> & H1 & H2). unfold V1.well_formed.
  apply has_keys_spec, Forall_app. split; eapply lookups_all; eauto.
Qed.


Lemma V3_get_or_NA (m : gmap string pyval) (k : string) :
  V3.get_or_NA (PDict m) k = Ok (default NA (m !! k)).
Proof.
  unfold V3.get_or_NA, contains, getitem, rbind.
  destruct (m !! k); reflexivity.
Qed.

Lemma V3_eval_source (s m : gmap string pyval) (i : V3.item) (v : pyval) :
  V3.eval (PDict s) (PDict m) i = Ok v <-> V3.source s m i = Some v.
Proof.
  destruct i; cbn [V3.eval V3.source]; [apply getitem_Ok | apply getitem_Ok |].
  split; congruence.
Qed.

Lemma V3_vals_Ok_iff (s m : gmap string pyval) (p1 p2 : row) :
  V3.vals (PDict s) (PDict m) = Ok (p1, p2) <->
  map Some p1 = map (V3.source s m) V3.p1_items
  /\ map Some p2 =
     map (V3.source s m)
         (V3.p2_items (default NA (m !! "player2_memory_struct"))
                      (default NA (m !! "player2_move"))).
Proof.
  unfold V3.vals. rewrite !V3_get_or_NA. cbn [rbind].
  split.
  - intros H.
    destruct (mapM (V3.eval (PDict s) (PDict m)) V3.p1_items) as [q1|e] eqn:H1;
      [|discriminate].
    cbn [rbind] in H.
    destruct (mapM (V3.eval (PDict s) (PDict m)) (V3.p2_items _ _)) as [q2|e] eqn:H2;
      [|discriminate].
    cbn [rbind] in H. injection H as -> ->.
    split; eapply mapM_lookup; eauto using V3_eval_source.
  - intros [H1 H2].
    apply (mapM_lookup _ _ (V3_eval_source s m)) in H1, H2.
    rewrite H1. cbn [rbind]. rewrite H2. reflexivity.
Qed.

Lemma V3_vals_Ok_p1 (parsed_data r : pyval) (p1 p2 : row) :
  V3.vals parsed_data r = Ok (p1, p2) ->
  mapM (V3.eval parsed_data r) V3.p1_items = Ok p1.
Proof.
  unfold V3.vals. intros H.
  destruct (V3.get_or_NA r "player2_memory_struct"); [|discriminate].
  destruct (V3.get_or_NA r "player2_move"); [|discriminate].
  cbn [rbind] in H.
  destruct (mapM (V3.eval parsed_data r) V3.p1_items); [|discriminate].
  cbn [rbind] in H.
  destruct (mapM (V3.eval parsed_data r) (V3.p2_items _ _)); [|discriminate].
  cbn [rbind] in H. injection H as -> ->. reflexivity.
Qed.

Lemma V3_vals_Ok_dict (parsed_data r : pyval) (p : row * row) :
  V3.vals parsed_data r = Ok p ->
  exists s m, parsed_data = PDict s /\ r = PDict m.
Proof.
  destruct p as [p1 p2]. intros H. apply V3_vals_Ok_p1 in H.
  assert (Hitem : forall i, In i V3.p1_items ->
                            exists v, V3.eval parsed_data r i = Ok v).
  { intros i Hi. destruct (V3.eval parsed_data r i) as [v|e] eqn:E; [eauto|].
    destruct (mapM_raises _ _ _ _ Hi E) as [e' He']. congruence. }
  destruct (Hitem (V3.R "game_id")) as [v1 H1]; [simpl; auto|].
  destruct (Hitem (V3.S "version")) as [v2 H2]; [simpl; auto|].
  apply getitem_Ok_dict in H1, H2. destruct H1 as [m ->], H2 as [s ->].
  exists s, m. auto.
Qed.

Lemma V3_source_all (s m : gmap string pyval) (l : list V3.item) :
  Forall (fun i => is_Some (V3.source s m i)) l <->
  has_keys (PDict s) (V3.session_keys l) = true
  /\ has_keys (PDict m) (V3.round_keys l) = true.
Proof.
  rewrite !has_keys_spec. induction l as [|i l IH].
  - simpl. split; [intros _; split; constructor | constructor].
  - rewrite List.Forall_cons_iff, IH.
    destruct i; cbn [V3.session_keys V3.round_keys V3.source];
      rewrite ?List.Forall_cons_iff; intuition eauto.
Qed.

Lemma V3_keys_p2 (a b : pyval) :
  V3.round_keys (V3.p2_items a b) = V3.round_keys (V3.p2_items NA NA)
  /\ V3.session_keys (V3.p2_items a b) = V3.session_keys (V3.p2_items NA NA).
Proof. split; reflexivity. Qed.

Lemma V3_round_keys_app (l l' : list V3.item) :
  V3.round_keys (l ++ l') = (V3.round_keys l ++ V3.round_keys l')%list.
Proof.
  induction l as [|[k|k|v] l IH]; simpl; rewrite ?IH; reflexivity.
Qed.

Lemma V3_session_keys_app (l l' : list V3.item) :
  V3.session_keys (l ++ l') = (V3.session_keys l ++ V3.session_keys l')%list.
Proof.
  induction l as [|[k|k|v] l IH]; simpl; rewrite ?IH; reflexivity.
Qed.

(** On dictionaries the record is well formed exactly when every item of
    the two lists finds its value. *)
Lemma V3_well_formed_spec (s m : gmap string pyval) (a b : pyval) :
  V3.well_formed (PDict s) (PDict m) = true <->
  Forall (fun i => is_Some (V3.source s m i)) V3.p1_items
  /\ Forall (fun i => is_Some (V3.source s m i)) (V3.p2_items a b).
Proof.
  rewrite !V3_source_all.
  destruct (V3_keys_p2 a b) as [-> ->].
  unfold V3.well_formed, V3.required_session_keys, V3.required_round_keys, V3.items.
  rewrite V3_round_keys_app, V3_session_keys_app, !has_keys_app, !andb_true_iff.
  tauto.
Qed.

Lemma V3_well_formed_total (parsed_data r : pyval) :
  V3.well_formed parsed_data r = true ->
  exists p1 p2, V3.vals parsed_data r = Ok (p1, p2).
Proof.
  intros H. assert (H' := H). unfold V3.well_formed in H'.
  apply andb_true_iff in H'. destruct H' as [Hs Hm].
  apply has_keys_dict in Hs, Hm. destruct Hs as [s ->], Hm as [m ->].
  apply (V3_well_formed_spec s m (default NA (m !! "player2_memory_struct"))
           (default NA (m !! "player2_move"))) in H.
  destruct H as [H1 H2]. apply lookups_total in H1, H2.
  destruct H1 as [p1 H1], H2 as [p2 H2].
  exists p1, p2. apply V3_vals_Ok_iff. auto.
Qed.

Lemma V3_vals_Ok_well_formed (parsed_data r : pyval) (p : row * row) :
  V3.vals parsed_data r = Ok p -> V3.well_formed parsed_data r = true.
Proof.
  intros H. destruct (V3_vals_Ok_dict _ _ _ H) as (s & m & -> & ->).
  destruct p as [p1 p2]. apply V3_vals_Ok_iff in H. destruct H as [H1 H2].
  eapply V3_well_formed_spec. split; eapply lookups_all; eauto.
Qed.

(** With a dictionary for the session and one for the round, the only
    exception the two lists can raise is the [KeyError] of a missing key. *)
Lemma V3_vals_Err (s m : gmap string pyval) (e : exn) :
  V3.vals (PDict s) (PDict m) = Err e ->
  exists k, e = KeyError k
    /\ ((In k V3.required_round_keys /\ m !! k = None)
        \/ (In k V3.required_session_keys /\ s !! k = None)).
Proof.
  unfold V3.vals. rewrite !V3_get_or_NA. cbn [rbind]. intros H.
  assert (Hitem : exists i, In i (V3.p1_items ++
                     V3.p2_items (default NA (m !! "player2_memory_struct"))
                                 (default NA (m !! "player2_move")))
                   /\ V3.eval (PDict s) (PDict m) i = Err e).
  { destruct (mapM (V3.eval (PDict s) (PDict m)) V3.p1_items) as [q1|e1] eqn:H1.
    - cbn [rbind] in H.
      destruct (mapM (V3.eval (PDict s) (PDict m)) (V3.p2_items _ _))
        as [q2|e2] eqn:H2; [discriminate|].
      cbn [rbind] in H. injection H as ->.
      apply mapM_Err_inv in H2. destruct H2 as (i & Hi & Hei).
      exists i. split; [apply in_or_app; right; exact Hi | exact Hei].
    - cbn [rbind] in H. injection H as ->.
      apply mapM_Err_inv in H1. destruct H1 as (i & Hi & Hei).
      exists i. split; [apply in_or_app; left; exact Hi | exact Hei]. }
  destruct Hitem as (i & Hi & Hei).
  assert (Hr : forall k, In (V3.R k) (V3.p1_items ++ V3.p2_items
                 (default NA (m !! "player2_memory_struct"))
                 (default NA (m !! "player2_move"))) ->
               In k V3.required_round_keys).
  { intros k Hk. cbn in Hk. cbn.
    repeat (destruct Hk as [Hk|Hk];
            [first [injection Hk as <-; tauto | discriminate]|]).
    destruct Hk. }
  assert (Hs : forall k, In (V3.S k) (V3.p1_items ++ V3.p2_items
                 (default NA (m !! "player2_memory_struct"))
                 (default NA (m !! "player2_move"))) ->
               In k V3.required_session_keys).
  { intros k Hk. cbn in Hk. cbn.
    repeat (destruct Hk as [Hk|Hk];
            [first [injection Hk as <-; tauto | discriminate]|]).
    destruct Hk. }
  destruct i as [k|k|v]; cbn [V3.eval] in Hei.
  - apply getitem_Err in Hei. destruct Hei as [Hn ->]. exists k. auto.
  - apply getitem_Err in Hei. destruct Hei as [Hn ->]. exists k. auto.
  - discriminate.
Qed.

Lemma In_round_keys (k : string) (l : list V3.item) :
  In (V3.R k) l <-> In k (V3.round_keys l).
Proof.
  induction l as [|[k'|k'|v] l IH]; simpl; [tauto| | |].
  - rewrite IH. split; intros [H|H]; auto; left; congruence.
  - rewrite <- IH. split; [intros [H|H]; [discriminate | exact H] | auto].
  - rewrite <- IH. split; [intros [H|H]; [discriminate | exact H] | auto].
Qed.

Lemma In_session_keys (k : string) (l : list V3.item) :
  In (V3.S k) l <-> In k (V3.session_keys l).
Proof.
  induction l as [|[k'|k'|v] l IH]; simpl; [tauto| | |].
  - rewrite <- IH. split; [intros [H|H]; [discriminate | exact H] | auto].
  - rewrite IH. split; intros [H|H]; auto; left; congruence.
  - rewrite <- IH. split; [intros [H|H]; [discriminate | exact H] | auto].
Qed.

(** A required key that is missing makes the two lists raise. *)
Lemma V3_missing_key_raises (s m : gmap string pyval) (k : string) :
  (In k V3.required_round_keys /\ m !! k = None)
  \/ (In k V3.required_session_keys /\ s !! k = None) ->
  exists k', V3.vals (PDict s) (PDict m) = Err (KeyError k').
Proof.
  intros Hk.
  destruct (V3.vals (PDict s) (PDict m)) as [p|e] eqn:Hv.
  - exfalso. apply V3_vals_Ok_well_formed in Hv.
    unfold V3.well_formed in Hv. apply andb_true_iff in Hv. destruct Hv as [Hs Hm].
    rewrite has_keys_spec, List.Forall_forall in Hs, Hm.
    destruct Hk as [[Hin Hn]|[Hin Hn]].
    + destruct (Hm k Hin) as [v Hv]. congruence.
    + destruct (Hs k Hin) as [v Hv]. congruence.
  - apply V3_vals_Err in Hv. destruct Hv as (k' & -> & _). exists k'. reflexivity.
Qed.

Lemma V3_required_keys_items (a b : pyval) (i : V3.item) :
  In i (V3.p1_items ++ V3.p2_items a b) ->
  match i with
  | V3.R k => In k V3.required_round_keys
  | V3.S k => In k V3.required_session_keys
  | V3.V _ => True
  end.
Proof.
  intros Hi. unfold V3.required_round_keys, V3.required_session_keys, V3.items.
  rewrite V3_round_keys_app, V3_session_keys_app.
  destruct (V3_keys_p2 a b) as [<- <-].
  rewrite <- V3_round_keys_app, <- V3_session_keys_app.
  destruct i; [apply In_round_keys | apply In_session_keys | exact I]; exact Hi.
Qed.

(** The two lists read the session and the round through the required
    keys and the two optional keys, and through nothing else. *)
Lemma V3_vals_agree (s s' m m' : gmap string pyval) :
  (forall k, In k V3.required_session_keys -> s' !! k = s !! k) ->
  (forall k, In k ("player2_memory_struct" :: "player2_move"
                   :: V3.required_round_keys) -> m' !! k = m !! k) ->
  V3.vals (PDict s') (PDict m') = V3.vals (PDict s) (PDict m).
Proof.
  intros Hs Hm. unfold V3.vals. rewrite !V3_get_or_NA.
  rewrite (Hm "player2_memory_struct"), (Hm "player2_move");
    [|right; left; reflexivity | left; reflexivity].
  cbn [rbind].
  assert (He : forall a b i, In i (V3.p1_items ++ V3.p2_items a b) ->
                 V3.eval (PDict s') (PDict m') i = V3.eval (PDict s) (PDict m) i).
  { intros a b i Hi. apply V3_required_keys_items in Hi.
    destruct i as [k|k|x]; cbn [V3.eval getitem]; [| |reflexivity].
    - rewrite (Hm k); [reflexivity | right; right; exact Hi].
    - rewrite (Hs k Hi). reflexivity. }
  rewrite (mapM_ext (V3.eval (PDict s') (PDict m')) (V3.eval (PDict s) (PDict m))
             V3.p1_items).
  2: { intros i Hi. apply (He NA NA). apply in_or_app. left. exact Hi. }
  destruct (mapM (V3.eval (PDict s) (PDict m)) V3.p1_items); [|reflexivity].
  cbn [rbind].
  rewrite (mapM_ext (V3.eval (PDict s') (PDict m')) (V3.eval (PDict s) (PDict m))
             (V3.p2_items _ _)); [reflexivity|].
  intros i Hi. eapply He. apply in_or_app. right. exact Hi.
Qed.

Example V3_required_round_keys :
  V3.required_round_keys =
  ["game_id"; "round_index"; "player1_id"; "round_begin_ts";
   "player1_move"; "player1_rt"; "player1_outcome"; "player1_outcome_viewtime";
   "player1_points"; "player1_total";
   "game_id"; "round_index"; "round_begin_ts";
   "player2_rt"; "player2_outcome"; "player2_outcome_viewtime";
   "player2_points"; "player2_total"].
Proof. reflexivity. Qed.

Example V3_required_session_keys :
  V3.required_session_keys =
  ["version"; "sona"; "experiment_id"; "credit_token"; "survey_code";
   "player2_bot_strategy";
   "version"; "sona"; "experiment_id"; "credit_token"; "survey_code";
   "player2_botid"; "player2_bot_strategy"].
Proof. reflexivity. Qed.

Lemma well_formed_total (v : version) (parsed_data r : pyval) :
  well_formed v parsed_data r = true ->
  exists p, vals_of v parsed_data r = Ok p.
Proof.
  destruct v; cbn [well_formed vals_of]; intros H.
  - destruct (V1_well_formed_total parsed_data r H) as (p1 & p2 & Hp). eauto.
  - destruct (V3_well_formed_total parsed_data r H) as (p1 & p2 & Hp). eauto.
Qed.

Lemma vals_Ok_well_formed (v : version) (parsed_data r : pyval) (p : row * row) :
  vals_of v parsed_data r = Ok p -> well_formed v parsed_data r = true.
Proof.
  destruct v; cbn [well_formed vals_of].
  - apply V1_vals_Ok_well_formed.
  - apply V3_vals_Ok_well_formed.
Qed.


(** ** The Flattener *)

(** A round is written to its end exactly when it is well formed and its
    two lists can be written. *)
Lemma round_written_iff (pf : platform) (v : version) (parsed_data r : pyval) :
  round_written pf (vals_of v) parsed_data r = true <->
  well_formed v parsed_data r = true /\ rows_writable pf v parsed_data r = true.
Proof.
  unfold round_written, rows_writable.
  destruct (vals_of v parsed_data r) as [[p1 p2]|e] eqn:Hv.
  - rewrite (vals_Ok_well_formed v _ _ _ Hv). tauto.
  - split; [discriminate|]. intros [Hwf _].
    destruct (well_formed_total v _ _ Hwf) as [p Hp]. congruence.
Qed.





(** C2.  For a round record with all required fields the two lists are
    built, and every field of them is the value found under the
    corresponding key, unchanged: in version 1 all ten fields of each row;
    in version 3 all eighteen, but for [is_bot] (the integer 0 for player
    1, 1 for player 2), the [bot_round_memory] of player 1 (the string NA)
    and the two optional fields of player 2, which are NA when the key is
    absent and the value under the key otherwise. *)
Theorem C2_rows_are_the_json_values :
  forall (s m : gmap string pyval),
    (V1.well_formed (PDict m) = true ->
     exists p1_vals p2_vals,
       V1.vals (PDict s) (PDict m) = Ok (p1_vals, p2_vals)
       /\ map Some p1_vals =
          [m !! "game_id"; m !! "round_index"; m !! "player1_id";
           m !! "round_begin_ts"; m !! "player1_move"; m !! "player1_rt";
           m !! "player1_outcome"; m !! "player1_outcome_viewtime";
           m !! "player1_points"; m !! "player1_total"]
       /\ map Some p2_vals =
          [m !! "game_id"; m !! "round_index"; m !! "player2_id";
           m !! "round_begin_ts"; m !! "player2_move"; m !! "player2_rt";
           m !! "player2_outcome"; m !! "player2_outcome_viewtime";
           m !! "player2_points"; m !! "player2_total"])
    /\ (V3.well_formed (PDict s) (PDict m) = true ->
        exists p1_vals p2_vals,
          V3.vals (PDict s) (PDict m) = Ok (p1_vals, p2_vals)
          /\ map Some p1_vals =
             [m !! "game_id";
              s !! "version"; s !! "sona"; s !! "experiment_id";
              s !! "credit_token"; s !! "survey_code";
              m !! "round_index"; m !! "player1_id"; Some (PInt 0);
              s !! "player2_bot_strategy"; Some NA;
              m !! "round_begin_ts";
              m !! "player1_move"; m !! "player1_rt"; m !! "player1_outcome";
              m !! "player1_outcome_viewtime";
              m !! "player1_points"; m !! "player1_total"]
          /\ map Some p2_vals =
             [m !! "game_id";
              s !! "version"; s !! "sona"; s !! "experiment_id";
              s !! "credit_token"; s !! "survey_code";
              m !! "round_index"; s !! "player2_botid"; Some (PInt 1);
              s !! "player2_bot_strategy";
              Some (default NA (m !! "player2_memory_struct"));
              m !! "round_begin_ts";
              Some (default NA (m !! "player2_move"));
              m !! "player2_rt"; m !! "player2_outcome";
              m !! "player2_outcome_viewtime";
              m !! "player2_points"; m !! "player2_total"]).
Proof.
  intros s m. split; intros Hwf.
  - destruct (V1_well_formed_total (PDict s) _ Hwf) as (p1 & p2 & Hv).
    exists p1, p2. split; [exact Hv|].
    apply V1_vals_Ok_iff in Hv. destruct Hv as (m' & Hm & H1 & H2).
    injection Hm as <-. split; [exact H1 | exact H2].
  - destruct (V3_well_formed_total _ _ Hwf) as (p1 & p2 & Hv).
    exists p1, p2. split; [exact Hv|].
    apply V3_vals_Ok_iff in Hv. destruct Hv as [H1 H2].
    split; [exact H1 | exact H2].
Qed.

Lemma C2_witness :
  (exists p1_vals p2_vals,
     V1.vals (PDict ∅) g1_round = Ok (p1_vals, p2_vals)
     /\ map Some p1_vals =
        map Some [PStr "g1"; PInt 0; PStr "p1"; PInt 100; PStr "rock"; PInt 500;
                  PStr "win"; PInt 200; PInt 1; PInt 1]
     /\ map Some p2_vals =
        map Some [PStr "g1"; PInt 0; PStr "p2"; PInt 100; PStr "scissors"; PInt 600;
                  PStr "lose"; PInt 200; PInt 0; PInt 0])
  /\ (exists p1_vals p2_vals,
        V3.vals (PDict (nash_session_fields [])) (PDict nash_round_fields)
        = Ok (p1_vals, p2_vals)
        /\ map Some p1_vals =
           map Some [PStr "g3"; PInt 3; PBool false; PStr "e"; PStr "t"; PStr "c";
                     PInt 4; PStr "h1"; PInt 0; PStr "nash"; NA; PInt 1700;
                     PStr "paper"; PInt 420; PStr "win"; PInt 900; PInt 3; PInt 7]
        /\ map Some p2_vals =
           map Some [PStr "g3"; PInt 3; PBool false; PStr "e"; PStr "t"; PStr "c";
                     PInt 4; PStr "bot7"; PInt 1; PStr "nash"; NA; PInt 1700;
                     NA; PInt 0; PStr "loss"; PInt 0; PInt (-1); PInt 2]).
Proof.
  split.
  - destruct (C2_rows_are_the_json_values ∅ g1_round_fields) as [H _].
    destruct (H eq_refl) as (p1 & p2 & Hv & H1 & H2).
    exists p1, p2. split; [exact Hv|]. split; [exact H1 | exact H2].
  - destruct (C2_rows_are_the_json_values (nash_session_fields []) nash_round_fields)
      as [_ H].
    destruct (H eq_refl) as (p1 & p2 & Hv & H1 & H2).
    exists p1, p2. split; [exact Hv|]. split; [exact H1 | exact H2].
Defined.

(** ** The Scanner *)

(** C3.  The Scanner keeps a name of the listing exactly when it ends
    with [.json] and holds none of [TEST], [freeResp], [sliderData].  A run
    of either script opens only names the Scanner kept; so a name that does
    not end with [.json] is never opened, and [pilot_TEST_01.json] is
    neither opened nor announced as processed, whatever the directory
    holds. *)
Theorem C3_scanner_selection :
  forall (d : directory),
    (forall f : string,
        In f (files d) <->
        In f (listdir d)
        /\ has_suffix ".json" f
        /\ ~ has_substring "TEST" f
        /\ ~ has_substring "freeResp" f
        /\ ~ has_substring "sliderData" f)
    /\ (forall (pf : platform) (v : version) (previous : list row) (f : string),
          In f (opened (snd (script pf v previous d))) -> In f (files d))
    /\ (forall f : string, ~ has_suffix ".json" f -> ~ In f (files d))
    /\ ~ In "pilot_TEST_01.json" (files d)
    /\ (forall (pf : platform) (v : version) (previous : list row),
          ~ In "pilot_TEST_01.json" (opened (snd (script pf v previous d)))
          /\ ~ In "Processing: pilot_TEST_01.json"
                 (printed (snd (script pf v previous d)))).
Proof.
  intros d.
  assert (Hsel : forall f, In f (files d) <->
                           In f (listdir d)
                           /\ has_suffix ".json" f
                           /\ ~ has_substring "TEST" f
                           /\ ~ has_substring "freeResp" f
                           /\ ~ has_substring "sliderData" f).
  { intros f. unfold files. rewrite List.filter_In, selected_spec. tauto. }
  assert (Hop : forall pf v previous f,
             In f (opened (snd (script pf v previous d))) -> In f (files d)).
  { intros pf v previous f H. exact (opened_selected pf v previous d f H). }
  assert (Hpilot : ~ In "pilot_TEST_01.json" (files d)).
  { unfold files. rewrite List.filter_In. intros [_ H]. vm_compute in H. discriminate. }
  split; [exact Hsel|]. split; [exact Hop|].
  split; [intros f Hf Hin; apply Hsel in Hin; tauto|].
  split; [exact Hpilot|].
  intros pf v previous. split; intros H.
  - apply Hpilot, (Hop pf v previous). exact H.
  - apply (printed_selected pf v previous d) in H. destruct H as (f & Hf & Heq).
    apply Hpilot. rewrite !append_cons_l, append_nil_l in Heq.
    injection Heq as <-. exact Hf.
Qed.

Lemma C3_witness :
  In "g1.json" (files g1_dir)
  /\ (In "g1.json" (opened (snd (script utf8_locale v1 [] g1_dir)))
      /\ has_suffix ".json" "g1.json")
  /\ ~ In "g1.txt" (files (mkDir ["g1.txt"] (fun _ => Json g1_json))).
Proof.
  destruct (C3_scanner_selection g1_dir) as (Hsel & Hop & _).
  destruct (C3_scanner_selection (mkDir ["g1.txt"] (fun _ => Json g1_json)))
    as (_ & _ & Hext & _).
  assert (Hopened : In "g1.json" (opened (snd (script utf8_locale v1 [] g1_dir)))).
  { vm_compute. left. reflexivity. }
  split; [|split].
  - apply Hsel. split; [left; reflexivity|].
    split; [apply endswith_spec; reflexivity|].
    repeat split; apply str_contains_false; reflexivity.
  - split; [exact Hopened|]. apply (Hsel "g1.json"), (Hop utf8_locale v1 []), Hopened.
  - apply Hext. intros H. apply endswith_spec in H. vm_compute in H. discriminate.
Defined.

Example scanner_example :
  files (mkDir ["g1.json"; "pilot_TEST_01.json"; "notes.txt"; "g2_freeResp.json";
                "x.json.bak"; "sliderData_4.json"; "test_lower.json"; ".json"]
               (fun _ => Unreadable))
  = ["g1.json"; "test_lower.json"; ".json"].
Proof. reflexivity. Qed.

(** ** The optional fields of version 3 *)

(** C4.  In version 3, for a round record with the required fields, the
    player-2 row has under [player_move] the value of [player2_move], or the
    string NA when that key is absent, and under [bot_round_memory] the
    value of [player2_memory_struct], or NA when that key is absent.  These
    two keys are not required; every other key the lists look up, in the
    round or in the session, raises a [KeyError] when it is absent. *)
Theorem C4_optional_fields_default_to_NA :
  forall (s m : gmap string pyval),
    (V3.well_formed (PDict s) (PDict m) = true ->
     exists p1_vals p2_vals,
       V3.vals (PDict s) (PDict m) = Ok (p1_vals, p2_vals)
       /\ column V3.header "player_move" p2_vals
          = Some (default NA (m !! "player2_move"))
       /\ column V3.header "bot_round_memory" p2_vals
          = Some (default NA (m !! "player2_memory_struct")))
    /\ ~ In "player2_move" V3.required_round_keys
    /\ ~ In "player2_memory_struct" V3.required_round_keys
    /\ (forall k : string,
          (In k V3.required_round_keys /\ m !! k = None)
          \/ (In k V3.required_session_keys /\ s !! k = None) ->
          exists k', V3.vals (PDict s) (PDict m) = Err (KeyError k')).
Proof.
  intros s m. split; [|split; [|split]].
  - intros Hwf. destruct (V3_well_formed_total _ _ Hwf) as (p1 & p2 & Hv).
    exists p1, p2. split; [exact Hv|].
    apply V3_vals_Ok_iff in Hv. destruct Hv as [_ H2].
    split; apply (column_of_lookups _ _ _ _ _ H2); reflexivity.
  - intros H. vm_compute in H. intuition discriminate.
  - intros H. vm_compute in H. intuition discriminate.
  - intros k. apply V3_missing_key_raises.
Qed.

Lemma C4_witness :
  (exists p1_vals p2_vals,
     V3.vals (PDict (nash_session_fields [])) (PDict nash_round_fields)
     = Ok (p1_vals, p2_vals)
     /\ column V3.header "player_move" p2_vals = Some NA
     /\ column V3.header "bot_round_memory" p2_vals = Some NA)
  /\ (exists p1_vals p2_vals,
        V3.vals (PDict (nash_session_fields [])) (PDict memory_round_fields)
        = Ok (p1_vals, p2_vals)
        /\ column V3.header "player_move" p2_vals = Some (PStr "rock")
        /\ column V3.header "bot_round_memory" p2_vals
           = Some (PDict (list_to_map [("rock", PInt 2); ("paper", PInt 1)])))
  /\ (exists k',
        V3.vals (PDict (nash_session_fields []))
                (PDict (delete "player2_rt" nash_round_fields))
        = Err (KeyError k')).
Proof.
  split; [|split].
  - destruct (C4_optional_fields_default_to_NA
                (nash_session_fields []) nash_round_fields) as (H & _).
    destruct (H eq_refl) as (p1 & p2 & Hv & Hmove & Hmem).
    exists p1, p2. split; [exact Hv|]. split; [exact Hmove | exact Hmem].
  - destruct (C4_optional_fields_default_to_NA
                (nash_session_fields []) memory_round_fields) as (H & _).
    destruct (H eq_refl) as (p1 & p2 & Hv & Hmove & Hmem).
    exists p1, p2. split; [exact Hv|]. split; [exact Hmove | exact Hmem].
  - destruct (C4_optional_fields_default_to_NA
                (nash_session_fields []) (delete "player2_rt" nash_round_fields))
      as (_ & _ & _ & H).
    apply (H "player2_rt"). left. split; [vm_compute; tauto | reflexivity].
Defined.

(** Scenario B: a session against the [nash] bot with a round that has no
    [player2_move]. *)
Example scenario_B :
  forall container_str : pyval -> string,
    csv_lines container_str
      (csv_rows utf8_locale v3 [] (mkDir ["b.json"]
                             (fun _ => Json (PDict (nash_session_fields
                                                      [PDict nash_round_fields])))))
    = ["game_id,version,is_sona_autocredit,sona_experiment_id,sona_credit_token,sona_survey_code,round_index,player_id,is_bot,bot_strategy,bot_round_memory,round_begin_ts,player_move,player_rt,player_outcome,player_outcome_viewtime,player_points,player_total";
       "g3,3,False,e,t,c,4,h1,0,nash,NA,1700,paper,420,win,900,3,7";
       "g3,3,False,e,t,c,4,bot7,1,nash,NA,1700,NA,0,loss,0,-1,2"].
Proof. intros container_str. vm_compute. reflexivity. Qed.

(** ** The Writer *)

(** C5.  In every run of either script, finished or aborted, the output
    is either empty or the header followed by data rows only, each of them
    the player-1 or player-2 list of some round: the header is written at
    most once, before every data row, however many files are processed.
    When the Scanner keeps no file, as in an empty directory, the run
    finishes and the output file has no row and no byte. *)
Theorem C5_header_written_once :
  forall (pf : platform) (v : version) (d : directory) (previous : list row),
    (csv_rows pf v previous d = []
     \/ csv_rows pf v previous d = header_of v :: data_rows pf (vals_of v) d (files d))
    /\ Forall (fun rw => exists parsed_data r p1_vals p2_vals,
                  vals_of v parsed_data r = Ok (p1_vals, p2_vals)
                  /\ (rw = p1_vals \/ rw = p2_vals))
              (data_rows pf (vals_of v) d (files d))
    /\ (files d = [] ->
        fst (script pf v previous d) = Ok tt
        /\ csv_rows pf v previous d = []
        /\ forall container_str : pyval -> string,
             csv_text container_str (csv_rows pf v previous d) = EmptyString).
Proof.
  intros pf v d previous. split; [|split].
  - unfold csv_rows.
    destruct (output_shape pf v previous d) as [[H _]|[H _]];
      auto.
  - exact (data_rows_from_vals pf v d (files d)).
  - intros Hnil. unfold csv_rows, script, output.
    destruct (run_trace pf v previous d) as (Hres & Hout & _).
    cbv zeta in Hres, Hout. rewrite Hres, Hout, Hnil. cbn.
    repeat split; reflexivity.
Qed.

Lemma C5_witness :
  fst (script utf8_locale v1 [V1.header] (mkDir [] (fun _ => Unreadable))) = Ok tt
  /\ csv_rows utf8_locale v1 [V1.header] (mkDir [] (fun _ => Unreadable)) = []
  /\ csv_rows utf8_locale v3 [] (mkDir ["readme.txt"] (fun _ => Unreadable)) = [].
Proof.
  destruct (C5_header_written_once utf8_locale v1 (mkDir [] (fun _ => Unreadable)) [V1.header])
    as (_ & _ & H1).
  destruct (C5_header_written_once utf8_locale v3 (mkDir ["readme.txt"] (fun _ => Unreadable)) [])
    as (_ & _ & H3).
  destruct (H1 eq_refl) as (Hres & Hrows & _).
  destruct (H3 eq_refl) as (_ & Hrows3 & _).
  split; [exact Hres|]. split; [exact Hrows | exact Hrows3].
Defined.

(** Two files, one header. *)
Example two_files_one_header :
  csv_rows utf8_locale v1 [] (mkDir ["a.json"; "b.json"] (fun _ => Json g1_json)) =
  [V1.header;
   [PStr "g1"; PInt 0; PStr "p1"; PInt 100; PStr "rock"; PInt 500; PStr "win";
    PInt 200; PInt 1; PInt 1];
   [PStr "g1"; PInt 0; PStr "p2"; PInt 100; PStr "scissors"; PInt 600; PStr "lose";
    PInt 200; PInt 0; PInt 0];
   [PStr "g1"; PInt 0; PStr "p1"; PInt 100; PStr "rock"; PInt 500; PStr "win";
    PInt 200; PInt 1; PInt 1];
   [PStr "g1"; PInt 0; PStr "p2"; PInt 100; PStr "scissors"; PInt 600; PStr "lose";
    PInt 200; PInt 0; PInt 0]].
Proof. vm_compute. reflexivity. Qed.

(** ** Missing keys *)




(** ** Scenario A and a second run *)

(** C7.  With the directory of scenario A, which holds the one file
    [g1.json] with its one round, the run of version 1 finishes and the
    output file has three lines: the header line, then
    [g1,0,p1,100,rock,500,win,200,1,1], then the line of player 2. *)
Theorem C7_scenario_A :
  forall (pf : platform) (container_str : pyval -> string) (previous : list row),
    fst (script pf v1 previous g1_dir) = Ok tt
    /\ csv_lines container_str (csv_rows pf v1 previous g1_dir) =
       ["game_id,round_index,player_id,round_begin_ts,player_move,player_rt,player_outcome,player_outcome_viewtime,player_points,player_total";
        "g1,0,p1,100,rock,500,win,200,1,1";
        "g1,0,p2,100,scissors,600,lose,200,0,0"]
    /\ length (csv_rows pf v1 previous g1_dir) = 3%nat
    /\ csv_text container_str (csv_rows pf v1 previous g1_dir) =
       String.concat CRLF
         ["game_id,round_index,player_id,round_begin_ts,player_move,player_rt,player_outcome,player_outcome_viewtime,player_points,player_total";
          "g1,0,p1,100,rock,500,win,200,1,1";
          "g1,0,p2,100,scissors,600,lose,200,0,0";
          EmptyString].
Proof.
  intros pf container_str previous. repeat split; vm_compute; reflexivity.
Qed.

Lemma for_ext {A} (l : list A) (body body' : A -> M unit) (st : state) :
  (forall a st', In a l -> body a st' = body' a st') ->
  for_ l body st = for_ l body' st.
Proof.
  revert st. induction l as [|a l IH]; intros st H; cbn [for_]; [reflexivity|].
  unfold bind. rewrite (H a st (or_introl eq_refl)).
  destruct (body' a st) as [[u|e] st1]; [|reflexivity].
  apply IH. intros a' st' Ha'. apply H. right. exact Ha'.
Qed.

(** A file is read through its content alone. *)
Lemma file_body_content (pf : platform) (header : row)
      (vals : pyval -> pyval -> result (row * row))
      (d d' : directory) (f : string) (st : state) :
  content d' f = content d f ->
  file_body pf header vals d' f st = file_body pf header vals d f st.
Proof.
  intros H. unfold file_body, bind, io_open. rewrite H. reflexivity.
Qed.

(** C8.  The output of a run does not depend on what the output file held
    before: opening it for writing empties it.  It depends on the data
    directory only through its listing and the contents of the files the
    Scanner keeps.  So a second run on the same directory, which finds the
    output file of the first run in its place, ends the same way and
    leaves the same bytes in the output file.  The name of the output file
    is not one the Scanner keeps, so this also holds when the output file
    lies in the data directory itself and shows up in its listing. *)
Theorem C8_second_run_same_output :
  forall (pf : platform) (v : version) (container_str : pyval -> string)
         (d : directory) (previous : list row),
    (forall previous' : list row,
        script pf v previous' d = script pf v previous d)
    /\ (forall d' : directory,
          listdir d' = listdir d ->
          (forall f, In f (files d) -> content d' f = content d f) ->
          script pf v previous d' = script pf v previous d)
    /\ csv_text container_str (csv_rows pf v (csv_rows pf v previous d) d)
       = csv_text container_str (csv_rows pf v previous d)
    /\ fst (script pf v (csv_rows pf v previous d) d) = fst (script pf v previous d)
    /\ forall (l1 l2 : list string) (c : string -> file),
         script pf v previous (mkDir (l1 ++ output_file_of v :: l2) c)
         = script pf v previous (mkDir (l1 ++ l2) c).
Proof.
  intros pf v container_str d previous.
  split; [reflexivity|]. split; [|split; [reflexivity|]; split; [reflexivity|]].
  - intros d' Hl Hc. unfold script, run, main.
    assert (Hf : files d' = files d) by (unfold files; rewrite Hl; reflexivity).
    rewrite !bind_eq. cbv beta iota. unfold set_write_index. cbv beta iota.
    rewrite Hf. rewrite (for_ext (files d) (file_body pf (header_of v) (vals_of v) d')
                           (file_body pf (header_of v) (vals_of v) d)); [reflexivity|].
    intros f st' Hin. apply file_body_content. exact (Hc f Hin).
  - intros l1 l2 c. unfold script, run, main.
    assert (Hf : files (mkDir (l1 ++ output_file_of v :: l2) c)
                 = files (mkDir (l1 ++ l2) c)).
    { unfold files. cbn [listdir]. rewrite !List.filter_app. cbn [List.filter].
      destruct v; reflexivity. }
    rewrite Hf. reflexivity.
Qed.

Lemma C8_witness :
  script utf8_locale v1 [V1.header; V1.header] g1_dir = script utf8_locale v1 [] g1_dir
  /\ script utf8_locale v1 []
             (mkDir ["g1.json"] (fun f => if String.eqb f "notes.txt"
                                          then Malformed NotJson else Json g1_json))
     = script utf8_locale v1 [] g1_dir.
Proof.
  destruct (C8_second_run_same_output utf8_locale v1 (fun _ => EmptyString) g1_dir [])
    as (H1 & H2 & _).
  split; [exact (H1 [V1.header; V1.header])|].
  apply H2; [reflexivity|].
  intros f [<-|[]]. reflexivity.
Defined.

(** ** The player rows of version 3 *)

(** C9.  In version 3, whenever the two lists of a round are built, the
    player-1 row has the string NA under [bot_round_memory], whether or
    not the round record has the key [player2_memory_struct]. *)
Theorem C9_player1_memory_is_NA :
  forall (parsed_data r : pyval) (p1_vals p2_vals : row),
    V3.vals parsed_data r = Ok (p1_vals, p2_vals) ->
    column V3.header "bot_round_memory" p1_vals = Some NA.
Proof.
  intros parsed_data r p1 p2 Hv.
  destruct (V3_vals_Ok_dict _ _ _ Hv) as (s & m & -> & ->).
  apply V3_vals_Ok_iff in Hv. destruct Hv as [H1 _].
  apply (column_of_lookups _ _ _ _ _ H1). reflexivity.
Qed.

Lemma C9_witness :
  exists p1_vals p2_vals,
    V3.vals (PDict (nash_session_fields [])) (PDict memory_round_fields)
    = Ok (p1_vals, p2_vals)
    /\ is_Some (memory_round_fields !! "player2_memory_struct")
    /\ column V3.header "bot_round_memory" p1_vals = Some NA.
Proof.
  destruct (V3.vals (PDict (nash_session_fields [])) (PDict memory_round_fields))
    as [[p1 p2]|e] eqn:Hv.
  - exists p1, p2. split; [reflexivity|]. split; [vm_compute; eauto|].
    exact (C9_player1_memory_is_NA _ _ p1 p2 Hv).
  - vm_compute in Hv. discriminate.
Defined.

(** C10.  In version 3, whenever the two lists of a round are built, the
    player-2 row has under [player_id] the value of the session key
    [player2_botid].  The lists depend on the session only through the
    required session keys, and on the round only through the required and
    the two optional round keys: no other field, such as a bot flag, has any
    effect.  When the session has no key [player2_botid], the lists of every
    round dictionary raise a [KeyError], and a file whose rounds list starts
    with a round dictionary ends with that [KeyError] before any data row
    is written. *)
Theorem C10_player2_id_is_the_bot_id :
  forall (s m : gmap string pyval),
    (forall p1_vals p2_vals : row,
        V3.vals (PDict s) (PDict m) = Ok (p1_vals, p2_vals) ->
        column V3.header "player_id" p2_vals = s !! "player2_botid")
    /\ (forall s' m' : gmap string pyval,
          (forall k, In k V3.required_session_keys -> s' !! k = s !! k) ->
          (forall k, In k ("player2_memory_struct" :: "player2_move"
                           :: V3.required_round_keys) -> m' !! k = m !! k) ->
          V3.vals (PDict s') (PDict m') = V3.vals (PDict s) (PDict m))
    /\ (s !! "player2_botid" = None ->
        (exists k, V3.vals (PDict s) (PDict m) = Err (KeyError k))
        /\ forall (pf : platform) (d : directory) (f : string) (st : state)
                  (rounds : list pyval),
             content d f = Json (PDict s) ->
             s !! "rounds" = Some (PList (PDict m :: rounds)) ->
             exists k,
               fst (file_body pf V3.header V3.vals d f st) = Err (KeyError k)
               /\ out (snd (file_body pf V3.header V3.vals d f st)) =
                  (out st ++ (if write_index st =? 0 then [V3.header] else []))%list).
Proof.
  intros s m. split; [|split].
  - intros p1 p2 Hv. apply V3_vals_Ok_iff in Hv. destruct Hv as [_ H2].
    apply (column_of_lookups _ _ _ _ _ H2). reflexivity.
  - intros s' m'. apply V3_vals_agree.
  - intros Hn.
    assert (Hk : exists k, V3.vals (PDict s) (PDict m) = Err (KeyError k)).
    { apply (V3_missing_key_raises s m "player2_botid"). right.
      split; [vm_compute; tauto | exact Hn]. }
    split; [exact Hk|].
    intros pf d f st rounds Hc Hr. destruct Hk as [k Hk]. exists k.
    destruct (file_body_trace pf v3 d f st) as (Hres & Hout & _ & _).
    cbv zeta in Hres, Hout. cbn [header_of vals_of] in Hres, Hout.
    rewrite Hres, Hout.
    unfold file_result, file_rows, reaches_header_test, session_rounds.
    rewrite Hc. cbn [getitem]. rewrite Hr.
    cbn [rbind fst snd iter rounds_result rounds_rows]. rewrite Hk.
    rewrite andb_true_r, app_nil_r. split; reflexivity.
Qed.

Lemma C10_witness :
  (exists p1_vals p2_vals,
     V3.vals (PDict (nash_session_fields [])) (PDict nash_round_fields)
     = Ok (p1_vals, p2_vals)
     /\ column V3.header "player_id" p2_vals = Some (PStr "bot7"))
  /\ V3.vals (PDict (<["player2_is_bot" := PBool false]> (nash_session_fields [])))
             (PDict (<["is_bot" := PInt 0]> nash_round_fields))
     = V3.vals (PDict (nash_session_fields [])) (PDict nash_round_fields)
  /\ (exists k,
        V3.vals (PDict (delete "player2_botid" (nash_session_fields [])))
                (PDict nash_round_fields)
        = Err (KeyError k)).
Proof.
  split; [|split].
  - destruct (V3.vals (PDict (nash_session_fields [])) (PDict nash_round_fields))
      as [[p1 p2]|e] eqn:Hv.
    + exists p1, p2. split; [reflexivity|].
      destruct (C10_player2_id_is_the_bot_id (nash_session_fields [])
                  nash_round_fields) as (H & _).
      exact (H p1 p2 Hv).
    + vm_compute in Hv. discriminate.
  - destruct (C10_player2_id_is_the_bot_id (nash_session_fields [])
                nash_round_fields) as (_ & H & _).
    apply H.
    + intros k Hk. apply lookup_insert_ne. intros <-. vm_compute in Hk.
      intuition discriminate.
    + intros k Hk. apply lookup_insert_ne. intros <-. vm_compute in Hk.
      intuition discriminate.
  - destruct (C10_player2_id_is_the_bot_id
                (delete "player2_botid" (nash_session_fields []))
                nash_round_fields) as (_ & _ & H).
    destruct (H eq_refl) as [Hk _]. exact Hk.
Defined.


(** ** Whole runs, on any machine and for either version *)

Section Whole.

Variable pf : platform.
Variable v : version.

Local Abbreviation header := (header_of v).
Local Abbreviation vals := (vals_of v).

Lemma run_printed (previous : list row) (d : directory) :
  printed (snd (run pf header vals previous d)) = files_printed pf vals d (files d).
Proof.
  unfold run, main, open_w. rewrite bind_eq. unfold set_write_index.
  cbv beta iota. rewrite (for_files_printed pf v). reflexivity.
Qed.

Lemma file_result_Ok_printed (d : directory) (f : string) (u : unit) :
  file_result pf vals d f = Ok u -> file_printed d f = [progress_line f].
Proof.
  unfold file_result, file_printed, session_rounds.
  destruct (content d f); [discriminate | discriminate | reflexivity].
Qed.

Lemma after_ok_files_printed (d : directory) (pre rest : list string) :
  Forall (fun g => file_result pf vals d g = Ok tt) pre ->
  files_printed pf vals d (pre ++ rest)
  = (map progress_line pre ++ files_printed pf vals d rest)%list.
Proof.
  induction 1 as [|g pre Hg _ IH]; cbn [app map files_printed]; [reflexivity|].
  rewrite Hg, IH, (file_result_Ok_printed d g tt Hg). reflexivity.
Qed.

(** A run that raises does so in one file, after processing the files
    before it to their end. *)
Lemma files_result_Err (d : directory) (fs : list string) (e : exn) :
  files_result pf vals d fs = Err e ->
  exists pre f post,
    fs = (pre ++ f :: post)%list
    /\ Forall (fun g => file_result pf vals d g = Ok tt) pre
    /\ file_result pf vals d f = Err e.
Proof.
  induction fs as [|g fs IH]; cbn [files_result]; [discriminate|].
  destruct (file_result pf vals d g) as [[]|e'] eqn:Hg.
  - intros H. destruct (IH H) as (pre & f & post & -> & Hpre & Hf).
    exists (g :: pre), f, post. split; [reflexivity|]. split; [|exact Hf].
    constructor; [exact Hg | exact Hpre].
  - intros H. injection H as ->. exists [], g, fs.
    split; [reflexivity|]. split; [constructor | exact Hg].
Qed.

Lemma files_result_Ok (d : directory) (fs : list string) :
  files_result pf vals d fs = Ok tt <->
  Forall (fun g => file_result pf vals d g = Ok tt) fs.
Proof.
  induction fs as [|g fs IH]; cbn [files_result].
  - split; [constructor | reflexivity].
  - rewrite List.Forall_cons_iff, <- IH.
    destruct (file_result pf vals d g) as [[]|e]; split;
      try tauto; try discriminate; intros [H _]; discriminate.
Qed.

Lemma pair_rows_app (prs prs' : list (row * row)) :
  pair_rows (prs ++ prs') = (pair_rows prs ++ pair_rows prs')%list.
Proof.
  induction prs as [|[p1 p2] prs IH]; cbn [app pair_rows]; [reflexivity|].
  rewrite IH. reflexivity.
Qed.

(** The rows of a round loop are pairs, each the two lists of one round,
    and after them at most one list of player 1 alone: the one written
    before the list of player 2 could not be. *)
Lemma rounds_rows_pairs (parsed_data : pyval) (rounds : list pyval) :
  exists prs tail,
    rounds_rows pf vals parsed_data rounds = (pair_rows prs ++ tail)%list
    /\ Forall (fun pr => exists r, vals parsed_data r = Ok pr) prs
    /\ (tail = []
        \/ exists r p1 p2,
             vals parsed_data r = Ok (p1, p2)
             /\ tail = [p1]
             /\ writable pf p1 = true
             /\ writable pf p2 = false
             /\ rounds_result pf vals parsed_data rounds = Err UnicodeEncodeError).
Proof.
  induction rounds as [|r rounds (prs & tail & Hrows & Hprs & Htail)];
    cbn [rounds_rows rounds_result].
  - exists [], []. split; [reflexivity|]. split; [constructor | left; reflexivity].
  - destruct (vals parsed_data r) as [[p1 p2]|e] eqn:Hr.
    + destruct (writable pf p1) eqn:H1; cbn [andb].
      * destruct (writable pf p2) eqn:H2.
        -- exists ((p1, p2) :: prs), tail. cbn [pair_rows app]. rewrite Hrows.
           split; [reflexivity|].
           split; [constructor; [exists r; exact Hr | exact Hprs]|].
           exact Htail.
        -- exists [], [p1]. split; [reflexivity|]. split; [constructor|].
           right. exists r, p1, p2. repeat split; assumption.
      * exists [], []. split; [reflexivity|].
        split; [constructor | left; reflexivity].
    + exists [], []. split; [reflexivity|].
      split; [constructor | left; reflexivity].
Qed.

Lemma data_rows_pairs (d : directory) (fs : list string) :
  exists prs tail,
    data_rows pf vals d fs = (pair_rows prs ++ tail)%list
    /\ Forall (fun pr => exists parsed_data r, vals parsed_data r = Ok pr) prs
    /\ (tail = []
        \/ exists parsed_data r p1 p2,
             vals parsed_data r = Ok (p1, p2)
             /\ tail = [p1]
             /\ writable pf p1 = true
             /\ writable pf p2 = false
             /\ files_result pf vals d fs = Err UnicodeEncodeError).
Proof.
  induction fs as [|f fs (prs & tail & Hrows & Hprs & Htail)];
    cbn [data_rows files_result].
  - exists [], []. split; [reflexivity|]. split; [constructor | left; reflexivity].
  - assert (Hf : exists prs0 tail0,
               file_rows pf vals d f = (pair_rows prs0 ++ tail0)%list
               /\ Forall (fun pr => exists parsed_data r,
                             vals parsed_data r = Ok pr) prs0
               /\ (tail0 = []
                   \/ exists parsed_data r p1 p2,
                        vals parsed_data r = Ok (p1, p2)
                        /\ tail0 = [p1]
                        /\ writable pf p1 = true
                        /\ writable pf p2 = false
                        /\ file_result pf vals d f = Err UnicodeEncodeError)).
    { unfold file_rows, file_result.
      destruct (session_rounds (content d f)) as [[pd rd]|e];
        [|exists [], []; split; [reflexivity|];
          split; [constructor | left; reflexivity]].
      cbn [rbind fst snd].
      destruct (iter rd) as [rounds|e];
        [|exists [], []; split; [reflexivity|];
          split; [constructor | left; reflexivity]].
      cbn [rbind].
      destruct (rounds_rows_pairs pd rounds) as (prs0 & tail0 & H0 & HF & HT).
      exists prs0, tail0. split; [exact H0|]. split.
      - eapply List.Forall_impl; [|exact HF]. intros pr [r Hr]. eauto.
      - destruct HT as [->|(r & p1 & p2 & HT)]; [left; reflexivity|].
        right. exists pd, r, p1, p2. exact HT. }
    destruct Hf as (prs0 & tail0 & H0 & HF0 & HT0).
    destruct (file_result pf vals d f) as [u|e] eqn:Hres.
    + destruct HT0 as [->|(pd & r & p1 & p2 & _ & _ & _ & _ & Hbad)];
        [|discriminate].
      exists (prs0 ++ prs)%list, tail.
      rewrite pair_rows_app, H0, Hrows, app_nil_r, <- app_assoc.
      split; [reflexivity|]. split; [apply Forall_app; auto|]. exact Htail.
    + exists prs0, tail0. rewrite app_nil_r. split; [exact H0|].
      split; [exact HF0|].
      destruct HT0 as [->|(pd & r & p1 & p2 & Hv & Ht & H1 & H2 & Hbad)];
        [left; reflexivity|].
      right. exists pd, r, p1, p2. repeat split; assumption.
Qed.

Lemma pair_rows_length (prs : list (row * row)) :
  length (pair_rows prs) = (2 * length prs)%nat.
Proof.
  induction prs as [|[p1 p2] prs IH]; cbn [pair_rows length]; [reflexivity|].
  rewrite IH. lia.
Qed.

End Whole.

(** ** Rounds and files that are not what the scripts expect *)



Lemma well_formed_is_dict (v : version) (parsed_data r : pyval) :
  well_formed v parsed_data r = true -> is_dict r = true.
Proof.
  destruct v; cbn [well_formed]; intros H.
  - apply has_keys_dict in H. destruct H as [m ->]. reflexivity.
  - unfold V3.well_formed in H. apply andb_true_iff in H. destruct H as [_ H].
    apply has_keys_dict in H. destruct H as [m ->]. reflexivity.
Qed.

(** What a file that is processed to its end looks like. *)
Lemma file_result_Ok_inv (pf : platform) (v : version) (d : directory) (f : string) :
  file_result pf (vals_of v) d f = Ok tt ->
  good_file pf v d f
  \/ exists (m : gmap string pyval) (round_data : pyval),
       content d f = Json (PDict m)
       /\ m !! "rounds" = Some round_data
       /\ (round_data = PStr EmptyString \/ round_data = PDict ∅).
Proof.
  unfold file_result, session_rounds.
  destruct (content d f) as [|why|pd] eqn:Hc;
    [discriminate | destruct why; discriminate |].
  destruct (getitem pd "rounds") as [rd|e] eqn:Hg; [|discriminate].
  cbn [rbind fst snd].
  destruct (getitem_Ok_dict _ _ _ Hg) as [m ->]. apply getitem_Ok in Hg.
  destruct (iter rd) as [items|e] eqn:Hi; [|discriminate]. cbn [rbind].
  intros Hres.
  assert (Hall : Forall (fun r => well_formed v (PDict m) r = true
                                  /\ rows_writable pf v (PDict m) r = true) items).
  { clear Hi. induction items as [|r items IH]; [constructor|].
    cbn [rounds_result] in Hres.
    destruct (vals_of v (PDict m) r) as [[p1 p2]|e] eqn:Hr; [|discriminate].
    destruct (writable pf p1 && writable pf p2) eqn:Hw; [|discriminate].
    constructor; [|exact (IH Hres)].
    apply round_written_iff. unfold round_written. rewrite Hr. exact Hw. }
  assert (Hnd : forall r, In r items -> is_dict r = true).
  { intros r Hr. rewrite List.Forall_forall in Hall.
    exact (well_formed_is_dict v _ _ (proj1 (Hall r Hr))). }
  destruct rd as [| | | |s0|l|m0]; try discriminate; cbn [iter] in Hi;
    injection Hi as <-.
  - right. exists m, (PStr s0). split; [reflexivity|]. split; [exact Hg|]. left.
    destruct s0 as [|c s0]; [reflexivity|].
    specialize (Hnd (PStr (String c EmptyString)) (or_introl eq_refl)). discriminate.
  - left. exists m, l. auto.
  - right. exists m, (PDict m0). split; [reflexivity|]. split; [exact Hg|]. right.
    f_equal. apply map_to_list_empty_iff.
    destruct (map_to_list m0) as [|[k x] kvs]; [reflexivity|].
    specialize (Hnd (PStr k) (or_introl eq_refl)). discriminate.
Qed.

Lemma mapM_length {A B} (f : A -> result B) (l : list A) (bs : list B) :
  mapM f l = Ok bs -> length bs = length l.
Proof.
  intros H. apply mapM_Ok_inv in H. induction H; cbn [length]; congruence.
Qed.

(** Both lists of a round have one field for each column of the header. *)
Lemma vals_length (v : version) (parsed_data r : pyval) (p1 p2 : row) :
  vals_of v parsed_data r = Ok (p1, p2) ->
  length p1 = length (header_of v) /\ length p2 = length (header_of v).
Proof.
  destruct v; cbn [vals_of header_of]; intros H.
  - unfold V1.vals in H.
    destruct (mapM (getitem r) V1.p1_keys) as [q1|e] eqn:H1; [|discriminate].
    destruct (mapM (getitem r) V1.p2_keys) as [q2|e] eqn:H2; [|discriminate].
    cbn [rbind] in H. injection H as <- <-.
    apply mapM_length in H1, H2. rewrite H1, H2. split; reflexivity.
  - unfold V3.vals in H.
    destruct (V3.get_or_NA r "player2_memory_struct") as [ms|e]; [|discriminate].
    destruct (V3.get_or_NA r "player2_move") as [mv|e]; [|discriminate].
    cbn [rbind] in H.
    destruct (mapM (V3.eval parsed_data r) V3.p1_items) as [q1|e] eqn:H1;
      [|discriminate].
    cbn [rbind] in H.
    destruct (mapM (V3.eval parsed_data r) (V3.p2_items ms mv)) as [q2|e] eqn:H2;
      [|discriminate].
    cbn [rbind] in H. injection H as <- <-.
    apply mapM_length in H1, H2. rewrite H1, H2. split; reflexivity.
Qed.


(** ** The order of a run *)

Lemma files_opened_prefix (pf : platform)
      (vals : pyval -> pyval -> result (row * row))
      (d : directory) (fs : list string) :
  exists rest, fs = (files_opened pf vals d fs ++ rest)%list.
Proof.
  induction fs as [|f fs [rest IH]]; cbn [files_opened].
  - exists []. reflexivity.
  - destruct (file_result pf vals d f).
    + exists rest. cbn [app]. rewrite <- IH. reflexivity.
    + exists fs. reflexivity.
Qed.

Lemma files_sublist (l : list string) : sublist (List.filter selected l) l.
Proof.
  induction l as [|f l IH]; cbn [List.filter]; [constructor|].
  destruct (selected f); constructor; exact IH.
Qed.

(** X1.  The files a run opens are the first files the Scanner kept, in
    the order of the listing, each once; the kept files themselves are
    the listing with names left out.  A run that finishes has opened every
    kept file and printed one line for each, in that order. *)
Theorem X1_files_processed_in_listing_order :
  forall (pf : platform) (v : version) (d : directory) (previous : list row),
    (exists rest,
        files d = (opened (snd (script pf v previous d)) ++ rest)%list)
    /\ sublist (files d) (listdir d)
    /\ (fst (script pf v previous d) = Ok tt ->
        opened (snd (script pf v previous d)) = files d
        /\ printed (snd (script pf v previous d)) = map progress_line (files d)).
Proof.
  intros pf v d previous. unfold script.
  destruct (run_trace pf v previous d) as (Hres & _ & Hop).
  cbv zeta in Hres, Hop. rewrite Hres, Hop, run_printed.
  split; [apply files_opened_prefix|]. split; [apply files_sublist|].
  intros Hok. apply files_result_Ok in Hok.
  destruct (after_ok_files pf v d (files d) [] Hok) as (_ & _ & Ho & _).
  assert (Hp := after_ok_files_printed pf v d (files d) [] Hok).
  rewrite app_nil_r in Ho, Hp. cbn [files_opened files_printed] in Ho, Hp.
  rewrite app_nil_r in Ho, Hp. split; assumption.
Qed.

Lemma X1_witness :
  opened (snd (script utf8_locale v1 [] (second_file_dir (Json g1_json)))) = ["a.json"; "b.json"]
  /\ printed (snd (script utf8_locale v1 [] (second_file_dir (Json g1_json))))
     = ["Processing: a.json"; "Processing: b.json"].
Proof.
  destruct (X1_files_processed_in_listing_order
              utf8_locale v1 (second_file_dir (Json g1_json)) []) as (_ & _ & H).
  exact (H eq_refl).
Defined.

(** ** Runs that finish *)




(** X3.  A run finishes without exception only if every file the Scanner
    kept holds a session dictionary with the key [rounds], and that value
    is a list of well-formed round records, or else an empty string or an
    empty dictionary (which the loop goes through without a step). *)
Theorem X3_finished_run_had_good_files :
  forall (pf : platform) (v : version) (d : directory) (previous : list row),
    fst (script pf v previous d) = Ok tt ->
    forall f, In f (files d) ->
      good_file pf v d f
      \/ exists (m : gmap string pyval) (round_data : pyval),
           content d f = Json (PDict m)
           /\ m !! "rounds" = Some round_data
           /\ (round_data = PStr EmptyString \/ round_data = PDict ∅).
Proof.
  intros pf v d previous Hok f Hf. unfold script in Hok.
  destruct (run_trace pf v previous d) as (Hres & _ & _).
  cbv zeta in Hres. rewrite Hres in Hok. apply files_result_Ok in Hok.
  rewrite List.Forall_forall in Hok. apply file_result_Ok_inv. exact (Hok f Hf).
Qed.

Lemma X3_witness :
  good_file utf8_locale v1 g1_dir "g1.json"
  \/ exists (m : gmap string pyval) (round_data : pyval),
       content g1_dir "g1.json" = Json (PDict m)
       /\ m !! "rounds" = Some round_data
       /\ (round_data = PStr EmptyString \/ round_data = PDict ∅).
Proof.
  apply (X3_finished_run_had_good_files utf8_locale v1 g1_dir [] eq_refl "g1.json").
  left. reflexivity.
Defined.

(** X4.  In every run, finished or aborted, the data rows come in pairs:
    the output is empty, or the header followed by the two lists of one
    round, then the two lists of another, and so on, and after them at
    most one more row.  That last row is the player-1 list of a round
    whose player-2 list could not be written in the encoding of the
    output file, and the run then ended with [UnicodeEncodeError]; in
    every other run no player-1 row is left without its player-2 row, so
    the number of data rows is even. *)
Theorem X4_data_rows_come_in_pairs :
  forall (pf : platform) (v : version) (d : directory) (previous : list row),
    exists (prs : list (row * row)) (tail : list row),
      Forall (fun pr => exists parsed_data r, vals_of v parsed_data r = Ok pr) prs
      /\ (csv_rows pf v previous d = []
          \/ (csv_rows pf v previous d = (header_of v :: pair_rows prs ++ tail)%list
              /\ length (csv_rows pf v previous d)
                 = (1 + 2 * length prs + length tail)%nat))
      /\ (tail = []
          \/ exists parsed_data r p1 p2,
               vals_of v parsed_data r = Ok (p1, p2)
               /\ tail = [p1]
               /\ writable pf p1 = true
               /\ writable pf p2 = false
               /\ fst (script pf v previous d) = Err UnicodeEncodeError)
      /\ (fst (script pf v previous d) <> Err UnicodeEncodeError -> tail = []).
Proof.
  intros pf v d previous.
  destruct (data_rows_pairs pf v d (files d)) as (prs & tail & Hrows & Hprs & Htail).
  destruct (run_trace pf v previous d) as (Hres & _ & _). cbv zeta in Hres.
  fold (script pf v previous d) in Hres.
  assert (Htail' : tail = []
          \/ exists parsed_data r p1 p2,
               vals_of v parsed_data r = Ok (p1, p2)
               /\ tail = [p1]
               /\ writable pf p1 = true
               /\ writable pf p2 = false
               /\ fst (script pf v previous d) = Err UnicodeEncodeError).
  { destruct Htail as [->|(pd & r & p1 & p2 & Hv & Ht & H1 & H2 & Hbad)];
      [left; reflexivity|].
    right. exists pd, r, p1, p2. rewrite Hres. repeat split; assumption. }
  exists prs, tail. split; [exact Hprs|]. split; [|split; [exact Htail'|]].
  - unfold csv_rows.
    destruct (output_shape pf v previous d) as [[H _]|[H _]];
      [left; exact H | right].
    rewrite H, Hrows. split; [reflexivity|].
    cbn [length]. rewrite length_app, pair_rows_length. lia.
  - intros Hne.
    destruct Htail' as [->|(pd & r & p1 & p2 & _ & _ & _ & _ & Hbad)];
      [reflexivity | contradiction].
Qed.

Lemma X4_witness :
  exists (prs : list (row * row)) (tail : list row),
    csv_rows utf8_locale v1 [] g1_dir = (V1.header :: pair_rows prs ++ tail)%list
    /\ tail = [].
Proof.
  destruct (X4_data_rows_come_in_pairs utf8_locale v1 g1_dir [])
    as (prs & tail & _ & [Hout|[Hout _]] & _ & Hnone); [discriminate|].
  exists prs, tail. split; [exact Hout|]. apply Hnone. discriminate.
Defined.

(** X5.  Every row of the output, the header and each data row, has the
    same number of fields: ten in version 1, eighteen in version 3. *)
Theorem X5_rows_have_the_width_of_the_header :
  forall (pf : platform) (v : version) (d : directory) (previous : list row),
    Forall (fun rw => length rw = length (header_of v)) (csv_rows pf v previous d)
    /\ length (header_of v) = match v with v1 => 10%nat | v3 => 18%nat end.
Proof.
  intros pf v d previous. split; [|destruct v; reflexivity].
  unfold csv_rows.
  assert (Hdata : Forall (fun rw => length rw = length (header_of v))
                         (data_rows pf (vals_of v) d (files d))).
  { eapply List.Forall_impl; [|apply data_rows_from_vals].
    intros rw (pd & r & p1 & p2 & Hv & Hrw).
    destruct (vals_length v pd r p1 p2 Hv) as [H1 H2].
    destruct Hrw as [->| ->]; assumption. }
  destruct (output_shape pf v previous d) as [[H _]|[H _]];
    rewrite H; constructor; [reflexivity | exact Hdata].
Qed.

(** X6.  A run that ends with an exception [e] stopped in one file [f]:
    the files before it were processed to their end, [f] raised [e], no
    file after [f] was opened, and the output holds the header (when a file
    came before [f] or [f] got past the lookup of [rounds]), the rows of the
    files before [f] and the rows written for [f] before the exception. *)
Theorem X6_an_aborted_run_stops_in_one_file :
  forall (pf : platform) (v : version) (d : directory) (previous : list row) (e : exn),
    fst (script pf v previous d) = Err e ->
    exists pre f post,
      files d = (pre ++ f :: post)%list
      /\ Forall (fun g => file_result pf (vals_of v) d g = Ok tt) pre
      /\ file_result pf (vals_of v) d f = Err e
      /\ aborts_in pf v previous d pre f e
                   (nonempty pre || reaches_header_test d f)
                   (file_rows pf (vals_of v) d f).
Proof.
  intros pf v d previous e He. unfold script in He.
  destruct (run_trace pf v previous d) as (Hres & _ & _).
  cbv zeta in Hres. rewrite Hres in He.
  destruct (files_result_Err pf v d (files d) e He)
    as (pre & f & post & Hfs & Hpre & Hf).
  exists pre, f, post. split; [exact Hfs|]. split; [exact Hpre|].
  split; [exact Hf|].
  exact (aborts_in_file pf v previous d pre f post e
           Hfs Hpre Hf).
Qed.

Lemma X6_witness :
  exists pre f post,
    files two_files_dir = (pre ++ f :: post)%list
    /\ Forall (fun g => file_result utf8_locale (vals_of v1) two_files_dir g = Ok tt) pre
    /\ file_result utf8_locale (vals_of v1) two_files_dir f = Err (KeyError "rounds")
    /\ aborts_in utf8_locale v1 [] two_files_dir pre f (KeyError "rounds")
                 (nonempty pre || reaches_header_test two_files_dir f)
                 (file_rows utf8_locale (vals_of v1) two_files_dir f).
Proof.
  exact (X6_an_aborted_run_stops_in_one_file
           utf8_locale v1 two_files_dir [] (KeyError "rounds") eq_refl).
Defined.


(** ** Files that cannot be processed *)

Section Failures.

Variable pf : platform.
Variable v : version.
Variable d : directory.
Variable previous : list row.
Variables (pre : list string) (f : string) (post : list string).
Hypothesis Hfiles : files d = (pre ++ f :: post)%list.
Hypothesis Hpre : Forall (fun g => file_result pf (vals_of v) d g = Ok tt) pre.

Lemma printed_until (e : exn) :
  file_result pf (vals_of v) d f = Err e ->
  printed (snd (script pf v previous d))
  = (map progress_line pre ++ file_printed d f)%list.
Proof.
  intros Hf. unfold script. rewrite run_printed, Hfiles.
  rewrite (after_ok_files_printed pf v d pre (f :: post) Hpre).
  cbn [files_printed]. rewrite Hf, app_nil_r. reflexivity.
Qed.

Lemma aborts_before_header (e : exn) :
  file_result pf (vals_of v) d f = Err e ->
  reaches_header_test d f = false ->
  aborts_in pf v previous d pre f e (nonempty pre) [].
Proof.
  intros Hf Hr.
  destruct (aborts_in_file pf v previous d pre f post e
              Hfiles Hpre Hf) as (Hres & Hop & Hout).
  rewrite Hr, (file_rows_nil pf v d f Hr), orb_false_r in Hout.
  repeat split; assumption.
Qed.


End Failures.

(** X7.  A kept file that cannot be opened ends the run with [OSError]:
    the files before it are in the output, the header with them when there
    is one such file, nothing is written for the file itself, and no line
    is printed for it, so the last line printed names the file before. *)
Theorem X7_unreadable_file_aborts :
  forall (pf : platform) (v : version) (d : directory) (previous : list row)
         (pre : list string) (f : string) (post : list string),
    files d = (pre ++ f :: post)%list ->
    Forall (fun g => file_result pf (vals_of v) d g = Ok tt) pre ->
    content d f = Unreadable ->
    aborts_in pf v previous d pre f OSError (nonempty pre) []
    /\ printed (snd (script pf v previous d)) = map progress_line pre.
Proof.
  intros pf v d previous pre f post Hfiles Hpre Hc.
  assert (Hf : file_result pf (vals_of v) d f = Err OSError).
  { unfold file_result, session_rounds. rewrite Hc. reflexivity. }
  assert (Hr : reaches_header_test d f = false).
  { unfold reaches_header_test, session_rounds. rewrite Hc. reflexivity. }
  split; [exact (aborts_before_header pf v d previous pre f post Hfiles Hpre _ Hf Hr)|].
  rewrite (printed_until pf v d previous pre f post Hfiles Hpre _ Hf).
  unfold file_printed. rewrite Hc. apply app_nil_r.
Qed.

Lemma X7_witness :
  aborts_in utf8_locale v1 [] (second_file_dir Unreadable) ["a.json"] "b.json" OSError true []
  /\ printed (snd (script utf8_locale v1 [] (second_file_dir Unreadable)))
     = ["Processing: a.json"].
Proof.
  apply (X7_unreadable_file_aborts utf8_locale v1 (second_file_dir Unreadable) []
           ["a.json"] "b.json" []);
    [reflexivity | repeat constructor | reflexivity].
Defined.



(** ** Values of [rounds] that are not a list of rounds *)









(** ** Rows that cannot be written *)



(** ** Which key a [KeyError] names *)

Lemma mapM_app {A B} (f : A -> result B) (l1 l2 : list A) :
  mapM f (l1 ++ l2) =
  (a <- mapM f l1 ;; b <- mapM f l2 ;; Ok (a ++ b)%list)%result.
Proof.
  induction l1 as [|x l1 IH]; cbn [app mapM rbind].
  - destruct (mapM f l2); reflexivity.
  - destruct (f x) as [y|e]; cbn [rbind]; [|reflexivity].
    rewrite IH. destruct (mapM f l1) as [a|e]; cbn [rbind]; [|reflexivity].
    destruct (mapM f l2); reflexivity.
Qed.

(** Building one list and then another raises what building them as one
    list raises. *)
Lemma two_lists_Err {A B} (f : A -> result B) (l1 l2 : list A) (e : exn) :
  (a <- mapM f l1 ;; b <- mapM f l2 ;; Ok (a, b))%result = Err e <->
  mapM f (l1 ++ l2) = Err e.
Proof.
  rewrite mapM_app.
  destruct (mapM f l1) as [a|e1]; cbn [rbind];
    [|split; intros H; injection H as ->; reflexivity].
  destruct (mapM f l2) as [b|e2]; cbn [rbind];
    [|split; intros H; injection H as ->; reflexivity].
  split; discriminate.
Qed.

(** A list display of lookups raises at the first item that finds
    nothing. *)
Lemma mapM_first_none {A} (f : A -> result pyval) (g : A -> option pyval)
      (l : list A) (e : exn) :
  (forall a x, f a = Ok x <-> g a = Some x) ->
  mapM f l = Err e <-> exists a, first_none g l = Some a /\ f a = Err e.
Proof.
  intros Hfg. induction l as [|a l IH]; cbn [mapM first_none].
  - split; [discriminate | intros (a & H & _); discriminate].
  - destruct (f a) as [x|e'] eqn:Hfa; cbn [rbind].
    + apply Hfg in Hfa. rewrite Hfa.
      destruct (mapM f l) as [xs|e''] eqn:HM; cbn [rbind].
      * split; [discriminate|]. intros H. apply IH in H. discriminate.
      * exact IH.
    + destruct (g a) as [x|] eqn:Hga.
      * apply Hfg in Hga. congruence.
      * split.
        -- intros H. injection H as ->. exists a. auto.
        -- intros (a' & Ha' & He). injection Ha' as <-. congruence.
Qed.

(** X12.  In version 1 a round dictionary makes the lists raise exactly
    when it lacks one of the seventeen keys, and the [KeyError] names the
    first missing key in the order the lists read them: the ten fields of
    player 1, then the ten of player 2. *)
Theorem X12_v1_KeyError_names_the_first_missing_key :
  forall (parsed_data : pyval) (m : gmap string pyval) (e : exn),
    V1.vals parsed_data (PDict m) = Err e <->
    exists k, first_none (fun k => m !! k) (V1.p1_keys ++ V1.p2_keys) = Some k
              /\ e = KeyError k.
Proof.
  intros pd m e. unfold V1.vals.
  etransitivity;
    [exact (two_lists_Err (getitem (PDict m)) V1.p1_keys V1.p2_keys e)|].
  rewrite (mapM_first_none (getitem (PDict m)) (fun k => m !! k) _ e (getitem_Ok m)).
  split; intros (k & Hk & He); exists k; (split; [exact Hk|]).
  - apply getitem_Err in He. tauto.
  - subst e. clear -Hk.
    assert (Hn : m !! k = None).
    { induction (V1.p1_keys ++ V1.p2_keys)%list as [|k' l IH];
        cbn [first_none] in Hk; [discriminate|].
      destruct (m !! k') eqn:Hk'; [exact (IH Hk) | congruence]. }
    cbn [getitem]. rewrite Hn. reflexivity.
Qed.

Lemma X12_witness :
  V1.vals PNone (PDict (delete "player2_id" (delete "player1_rt" g1_round_fields)))
  = Err (KeyError "player1_rt").
Proof.
  apply (X12_v1_KeyError_names_the_first_missing_key PNone
           (delete "player2_id" (delete "player1_rt" g1_round_fields))
           (KeyError "player1_rt")).
  exists "player1_rt". split; reflexivity.
Defined.

Lemma first_none_None {A} (g : A -> option pyval) (l : list A) (a : A) :
  first_none g l = Some a -> g a = None.
Proof.
  induction l as [|a' l IH]; cbn [first_none]; [discriminate|].
  destruct (g a') eqn:Ha'; [exact IH | congruence].
Qed.

(** X13.  In version 3 a session dictionary and a round dictionary make
    the lists raise exactly when a required key is missing, and the
    [KeyError] names the first missing key in the order the lists read
    them: the player-1 list from [game_id] on, session keys in their
    places, and then the player-2 list.  The two optional keys never
    raise. *)
Theorem X13_v3_KeyError_names_the_first_missing_key :
  forall (s m : gmap string pyval) (e : exn),
    V3.vals (PDict s) (PDict m) = Err e <->
    exists i, first_none (V3.source s m) V3.items = Some i
              /\ e = KeyError (item_key i).
Proof.
  intros s m e. unfold V3.vals. rewrite !V3_get_or_NA. cbn [rbind].
  etransitivity;
    [exact (two_lists_Err (V3.eval (PDict s) (PDict m)) V3.p1_items
              (V3.p2_items (default NA (m !! "player2_memory_struct"))
                           (default NA (m !! "player2_move"))) e)|].
  rewrite (mapM_first_none (V3.eval (PDict s) (PDict m)) (V3.source s m) _ e
             (V3_eval_source s m)).
  assert (Hsame : first_none (V3.source s m)
                    (V3.p1_items ++ V3.p2_items
                       (default NA (m !! "player2_memory_struct"))
                       (default NA (m !! "player2_move")))
                  = first_none (V3.source s m) V3.items).
  { reflexivity. }
  rewrite Hsame.
  split; intros (i & Hi & He); exists i; (split; [exact Hi|]).
  - destruct i as [k|k|x]; cbn [V3.eval item_key] in *;
      [apply getitem_Err in He; tauto | apply getitem_Err in He; tauto
       | discriminate].
  - subst e. apply first_none_None in Hi.
    destruct i as [k|k|x]; cbn [V3.eval V3.source item_key getitem] in *;
      [rewrite Hi; reflexivity | rewrite Hi; reflexivity | discriminate].
Qed.

Lemma X13_witness :
  V3.vals (PDict (delete "sona" (nash_session_fields [])))
          (PDict (delete "player1_id" nash_round_fields))
  = Err (KeyError "sona").
Proof.
  apply (X13_v3_KeyError_names_the_first_missing_key
           (delete "sona" (nash_session_fields []))
           (delete "player1_id" nash_round_fields) (KeyError "sona")).
  exists (V3.S "sona"). split; reflexivity.
Defined.

(** ** What the lists of a round do not depend on *)

(** X14.  In version 1 the lists of a round depend on nothing but the
    values under the seventeen keys of the round: the session plays no
    part, and any further field of the round is ignored. *)
Theorem X14_v1_reads_only_its_round_keys :
  forall (parsed_data parsed_data' : pyval) (m m' : gmap string pyval),
    (forall k, In k (V1.p1_keys ++ V1.p2_keys) -> m' !! k = m !! k) ->
    V1.vals parsed_data' (PDict m') = V1.vals parsed_data (PDict m).
Proof.
  intros pd pd' m m' H. unfold V1.vals.
  assert (He : forall l, (forall k, In k l -> In k (V1.p1_keys ++ V1.p2_keys)) ->
                         mapM (getitem (PDict m')) l = mapM (getitem (PDict m)) l).
  { intros l Hl. apply mapM_ext. intros k Hk. cbn [getitem].
    rewrite (H k (Hl k Hk)). reflexivity. }
  rewrite (He V1.p1_keys), (He V1.p2_keys); [reflexivity | |];
    intros k Hk; apply in_or_app; auto.
Qed.

Lemma X14_witness :
  V1.vals (PStr "ignored") (PDict (<["comment" := PStr "pilot"]> g1_round_fields))
  = V1.vals PNone (PDict g1_round_fields).
Proof.
  apply X14_v1_reads_only_its_round_keys.
  intros k Hk. apply lookup_insert_ne. intros <-. vm_compute in Hk.
  intuition discriminate.
Defined.

Lemma column_shared (header : row) (name : string) (r1 r2 : row)
      (os1 os2 : list (option pyval)) (o : option pyval) :
  map Some r1 = os1 ->
  map Some r2 = os2 ->
  column header name os1 = Some o ->
  column header name os2 = Some o ->
  is_Some o ->
  column header name r1 = column header name r2
  /\ is_Some (column header name r1).
Proof.
  intros H1 H2 E1 E2 Ho.
  rewrite (column_of_lookups _ _ _ _ _ H1 E1), (column_of_lookups _ _ _ _ _ H2 E2).
  split; [reflexivity | exact Ho].
Qed.

(** X15.  The two rows of a round agree on every column that does not
    depend on the player: [game_id], [round_index] and [round_begin_ts],
    and in version 3 also the five session columns and [bot_strategy]. *)
Theorem X15_rows_of_a_round_share_the_round_columns :
  forall (v : version) (parsed_data r : pyval) (p1_vals p2_vals : row) (name : string),
    vals_of v parsed_data r = Ok (p1_vals, p2_vals) ->
    In name (shared_columns v) ->
    column (header_of v) name p1_vals = column (header_of v) name p2_vals
    /\ is_Some (column (header_of v) name p1_vals).
Proof.
  intros v pd r p1 p2 name Hv Hin.
  assert (Hwf := vals_Ok_well_formed v pd r _ Hv).
  destruct v; cbn [vals_of header_of shared_columns well_formed] in *.
  - apply V1_vals_Ok_iff in Hv. destruct Hv as (m & -> & H1 & H2).
    unfold V1.well_formed in Hwf. rewrite has_keys_spec, List.Forall_forall in Hwf.
    cbn [In] in Hin.
    repeat (destruct Hin as [<-|Hin];
            [eapply column_shared;
             [exact H1 | exact H2 | reflexivity | reflexivity
              | apply Hwf; vm_compute; tauto]|]).
    destruct Hin.
  - destruct (V3_vals_Ok_dict _ _ _ Hv) as (s & m & -> & ->).
    apply V3_vals_Ok_iff in Hv. destruct Hv as [H1 H2].
    unfold V3.well_formed in Hwf. apply andb_true_iff in Hwf.
    destruct Hwf as [Hs Hm].
    rewrite has_keys_spec, List.Forall_forall in Hs, Hm.
    cbn [In] in Hin.
    repeat (destruct Hin as [<-|Hin];
            [eapply column_shared;
             [exact H1 | exact H2 | reflexivity | reflexivity
              | first [apply Hm; vm_compute; tauto
                      | apply Hs; vm_compute; tauto]]|]).
    destruct Hin.
Qed.

Lemma X15_witness :
  column V3.header "bot_strategy" [PStr "g3"; PInt 3; PBool false; PStr "e"; PStr "t";
     PStr "c"; PInt 4; PStr "h1"; PInt 0; PStr "nash"; NA; PInt 1700; PStr "paper";
     PInt 420; PStr "win"; PInt 900; PInt 3; PInt 7]
  = column V3.header "bot_strategy" [PStr "g3"; PInt 3; PBool false; PStr "e"; PStr "t";
     PStr "c"; PInt 4; PStr "bot7"; PInt 1; PStr "nash"; NA; PInt 1700; NA; PInt 0;
     PStr "loss"; PInt 0; PInt (-1); PInt 2].
Proof.
  apply (X15_rows_of_a_round_share_the_round_columns v3
           (PDict (nash_session_fields [])) (PDict nash_round_fields) _ _
           "bot_strategy").
  - reflexivity.
  - vm_compute. tauto.
Defined.
